(** * snes9xGC: the button-mapping matrix and the input helpers

    A shallow embedding of [ResetControls] (ResetControls_original.cpp) and
    of the input helpers of tests/unit/test_input.cpp, followed by the
    properties of the mapping registry, the edge tracker, the analog
    converter, the combo validator and the cross-family remap table. *)

From Stdlib Require Import ZArith Lia Bool.
From stdpp Require Import base option list.

Local Open Scope Z_scope.

(** ** Machine integers *)

(** A [u32] is a [Z] in [0, 2^32); [~a] on a [u32] is the complement of the
    low 32 bits. *)
Definition u32_max : Z := 0xFFFFFFFF.

Definition is_u32 (a : Z) : Prop := 0 <= a < 2 ^ 32.

Definition not32 (a : Z) : Z := Z.land (Z.lnot a) u32_max.

(** A button mask with exactly one of its 32 bits set. *)
Definition single_bit (a : Z) : Prop := ∃ k, 0 <= k < 32 ∧ a = 2 ^ k.

(** ** tests/unit/test_input.cpp *)

(** enum SNESButtons *)
Definition SNES_B : Z := 0x8000.
Definition SNES_Y : Z := 0x4000.
Definition SNES_SELECT : Z := 0x2000.
Definition SNES_START : Z := 0x1000.
Definition SNES_UP : Z := 0x0800.
Definition SNES_DOWN : Z := 0x0400.
Definition SNES_LEFT : Z := 0x0200.
Definition SNES_RIGHT : Z := 0x0100.
Definition SNES_A : Z := 0x0080.
Definition SNES_X : Z := 0x0040.
Definition SNES_L : Z := 0x0020.
Definition SNES_R : Z := 0x0010.

(** struct ControllerState *)
Record ControllerState : Type := mkControllerState {
  buttons_held : Z;
  buttons_pressed : Z;
  buttons_released : Z;
  stick_x : Z;
  stick_y : Z;
  connected : bool
}.

(** [current->buttons_pressed = v] and [current->buttons_released = v]. *)
Definition set_buttons_pressed (v : Z) (s : ControllerState) : ControllerState :=
  mkControllerState (buttons_held s) v (buttons_released s)
                    (stick_x s) (stick_y s) (connected s).

Definition set_buttons_released (v : Z) (s : ControllerState) : ControllerState :=
  mkControllerState (buttons_held s) (buttons_pressed s) v
                    (stick_x s) (stick_y s) (connected s).

(** [ControllerState s = {0};] and the same with [s.buttons_held = v;]. *)
Definition zero_state : ControllerState := mkControllerState 0 0 0 0 0 false.

Definition held (v : Z) : ControllerState := mkControllerState v 0 0 0 0 false.

(** The controller states live in a store; a [ControllerState*] is either
    [nullptr] ([None]) or the address of a cell of the store, so that the two
    arguments of [TestProcessButtonInput] may alias. *)
Abbreviation heap := (list ControllerState).
Abbreviation ptr := (option nat).
Definition nullptr : ptr := None.

(** [bool TestProcessButtonInput(ControllerState* current,
                                 ControllerState* previous)].
    The result is [None] when a non-null pointer does not address a cell of
    the store (a dereference C leaves undefined); otherwise the returned
    flag and the store after the call. Each assignment reads through the
    pointers again, as the two statements of the source do. *)
Definition TestProcessButtonInput (current previous : ptr) (h : heap)
  : option (bool * heap) :=
  match current, previous with
  | Some c, Some p =>
      cur ← h !! c;
      prev ← h !! p;
      let h1 :=
        <[c := set_buttons_pressed
                 (Z.land (buttons_held cur) (not32 (buttons_held prev))) cur]> h in
      cur1 ← h1 !! c;
      prev1 ← h1 !! p;
      let h2 :=
        <[c := set_buttons_released
                 (Z.land (buttons_held prev1) (not32 (buttons_held cur1))) cur1]> h1 in
      Some (true, h2)
  | _, _ => Some (false, h)
  end.

(** [bool TestValidateButtonCombo(u32 buttons, u32 required_combo)] *)
Definition TestValidateButtonCombo (buttons required_combo : Z) : bool :=
  Z.land buttons required_combo =? required_combo.

(** [u32 TestMapGCButtonToSNES(u32 gc_button)]: the [switch] of the source,
    one comparison per [case], [default] last. *)
Definition TestMapGCButtonToSNES (gc_button : Z) : Z :=
  if gc_button =? 0x0001 then SNES_A
  else if gc_button =? 0x0002 then SNES_B
  else if gc_button =? 0x0004 then SNES_X
  else if gc_button =? 0x0008 then SNES_Y
  else if gc_button =? 0x0010 then SNES_L
  else if gc_button =? 0x0020 then SNES_R
  else if gc_button =? 0x0100 then SNES_START
  else if gc_button =? 0x1000 then SNES_UP
  else if gc_button =? 0x2000 then SNES_DOWN
  else if gc_button =? 0x4000 then SNES_LEFT
  else if gc_button =? 0x8000 then SNES_RIGHT
  else 0.

(** The remap table read as data: the [case] labels of the switch with the
    value each one returns, in source order. *)
Definition gc_to_snes_table : list (Z * Z) :=
  [ (0x0001, SNES_A); (0x0002, SNES_B); (0x0004, SNES_X); (0x0008, SNES_Y);
    (0x0010, SNES_L); (0x0020, SNES_R); (0x0100, SNES_START);
    (0x1000, SNES_UP); (0x2000, SNES_DOWN); (0x4000, SNES_LEFT);
    (0x8000, SNES_RIGHT) ].

(** [u32 TestStickToDigital(s16 x, s16 y, s16 threshold)]. The operands of
    the comparisons are promoted to [int], so [-threshold] does not wrap for
    any [s16] threshold and the comparisons are those of [Z]. *)
Definition TestStickToDigital (x y threshold : Z) : Z :=
  let digital := 0 in
  let digital := if x <? - threshold then Z.lor digital SNES_LEFT else digital in
  let digital := if x >? threshold then Z.lor digital SNES_RIGHT else digital in
  let digital := if y <? - threshold then Z.lor digital SNES_DOWN else digital in
  let digital := if y >? threshold then Z.lor digital SNES_UP else digital in
  digital.

(** The four direction bits, [SNES_RIGHT], [SNES_LEFT], [SNES_DOWN] and
    [SNES_UP], occupy positions 8 to 11. *)
Definition dpad_mask : Z := 0x0F00.

(** [bool TestStickDeadzone(s16 x, s16 y, s16 deadzone)] *)
Definition TestStickDeadzone (x y deadzone : Z) : bool :=
  (Z.abs x <? deadzone) && (Z.abs y <? deadzone).

(** ** tests/unit/test_button_mapping.cpp: the controller families *)

Definition CTRLR_NONE : Z := -1.
Definition CTRLR_GCPAD : Z := 0.
Definition CTRLR_WIIMOTE : Z := 1.
Definition CTRLR_NUNCHUK : Z := 2.
Definition CTRLR_CLASSIC : Z := 3.
Definition CTRLR_WUPC : Z := 4.
Definition CTRLR_WIIDRC : Z := 5.

(** [bool TestIsValidController(int controller)] *)
Definition TestIsValidController (controller : Z) : bool :=
  (controller >=? CTRLR_GCPAD) && (controller <=? CTRLR_WIIDRC).

(** ** ResetControls_original.cpp *)

(** The constants [ResetControls] names are declared in headers that are not
    part of the sources: the emulator's [CTRL_*] scheme numbers and the
    button codes of the console toolchain. They are taken as parameters; a
    button code stands for its value as a [u32], the type of the entries of
    [btnmap]. *)
Class Header : Type := mkHeader {
  CTRL_PAD : Z;
  CTRL_SCOPE : Z;
  CTRL_MOUSE : Z;
  CTRL_JUST : Z;
  PAD_BUTTON_A : Z;
  PAD_BUTTON_B : Z;
  PAD_BUTTON_X : Z;
  PAD_BUTTON_Y : Z;
  PAD_TRIGGER_L : Z;
  PAD_TRIGGER_R : Z;
  PAD_BUTTON_START : Z;
  PAD_TRIGGER_Z : Z;
  PAD_BUTTON_UP : Z;
  PAD_BUTTON_DOWN : Z;
  PAD_BUTTON_LEFT : Z;
  PAD_BUTTON_RIGHT : Z;
  WPAD_BUTTON_B : Z;
  WPAD_BUTTON_2 : Z;
  WPAD_BUTTON_1 : Z;
  WPAD_BUTTON_A : Z;
  WPAD_BUTTON_PLUS : Z;
  WPAD_BUTTON_MINUS : Z;
  WPAD_BUTTON_RIGHT : Z;
  WPAD_BUTTON_LEFT : Z;
  WPAD_BUTTON_UP : Z;
  WPAD_BUTTON_DOWN : Z;
  WPAD_CLASSIC_BUTTON_A : Z;
  WPAD_CLASSIC_BUTTON_B : Z;
  WPAD_CLASSIC_BUTTON_X : Z;
  WPAD_CLASSIC_BUTTON_Y : Z;
  WPAD_CLASSIC_BUTTON_FULL_L : Z;
  WPAD_CLASSIC_BUTTON_FULL_R : Z;
  WPAD_CLASSIC_BUTTON_PLUS : Z;
  WPAD_CLASSIC_BUTTON_MINUS : Z;
  WPAD_CLASSIC_BUTTON_UP : Z;
  WPAD_CLASSIC_BUTTON_DOWN : Z;
  WPAD_CLASSIC_BUTTON_LEFT : Z;
  WPAD_CLASSIC_BUTTON_RIGHT : Z;
  WIIDRC_BUTTON_A : Z;
  WIIDRC_BUTTON_B : Z;
  WIIDRC_BUTTON_X : Z;
  WIIDRC_BUTTON_Y : Z;
  WIIDRC_BUTTON_L : Z;
  WIIDRC_BUTTON_R : Z;
  WIIDRC_BUTTON_PLUS : Z;
  WIIDRC_BUTTON_MINUS : Z;
  WIIDRC_BUTTON_UP : Z;
  WIIDRC_BUTTON_DOWN : Z;
  WIIDRC_BUTTON_LEFT : Z;
  WIIDRC_BUTTON_RIGHT : Z;
  WPAD_NUNCHUK_BUTTON_C : Z;
  WPAD_NUNCHUK_BUTTON_Z : Z
}.

(** Modelled from the spec: the declaration of [btnmap] is not in the
    sources. The matrix has one row per (console scheme, physical device)
    pair, 4 schemes by 6 devices, and a row has room for the 12 slots of the
    largest scheme; it is a global, hence zero-initialised. *)
Definition NUM_CTRL : nat := 4.
Definition NUM_CTRLR : nat := 6.
Definition NUM_SLOTS : nat := 12.

Abbreviation btnmap_t := (list (list (list Z))).

Definition btnmap0 : btnmap_t :=
  replicate NUM_CTRL (replicate NUM_CTRLR (replicate NUM_SLOTS 0)).

Definition wf_btnmap (m : btnmap_t) : Prop :=
  length m = NUM_CTRL ∧
  Forall (λ plane : list (list Z),
            length plane = NUM_CTRLR ∧
            Forall (λ r : list Z, length r = NUM_SLOTS) plane) m.

(** The row [btnmap[c][p]], by array position. *)
Definition row (c p : nat) (m : btnmap_t) : option (list Z) :=
  plane ← m !! c; plane !! p.

(** [btnmap[c][p][i] = v], for constant indices [c] and [p]. *)
Definition store (c p : Z) (i : nat) (v : Z) (m : btnmap_t) : btnmap_t :=
  alter (alter (<[i := v]>) (Z.to_nat p)) (Z.to_nat c) m.

(** [btnmap[c][p][i++] = v] on the pair (i, btnmap). *)
Definition assign (c p : Z) (st : nat * btnmap_t) (v : Z) : nat * btnmap_t :=
  (S st.1, store c p st.1 v st.2).

(** [i=0;] followed by the assignments of one block, in order. *)
Definition fill (c p : Z) (vals : list Z) (m : btnmap_t) : btnmap_t :=
  (foldl (assign c p) (0%nat, m) vals).2.

(** The condition that guards every block:
    [consoleCtrl == -1 || (consoleCtrl == c && wiiCtrl == p)]. *)
Definition selected (consoleCtrl wiiCtrl c p : Z) : bool :=
  (consoleCtrl =? -1) || ((consoleCtrl =? c) && (wiiCtrl =? p)).

(** [if (cond) { body }] on the matrix. *)
Definition when (cond : bool) (body : btnmap_t → btnmap_t) (m : btnmap_t)
  : btnmap_t :=
  if cond then body m else m.

Section ResetControls.
Context {K : Header}.

(** [void ResetControls(int consoleCtrl, int wiiCtrl)] *)
Definition ResetControls (consoleCtrl wiiCtrl : Z) (m : btnmap_t) : btnmap_t :=
  (* Gamecube controller Padmap *)
  let m := when (selected consoleCtrl wiiCtrl CTRL_PAD CTRLR_GCPAD)
             (fill CTRL_PAD CTRLR_GCPAD
                [PAD_BUTTON_A; PAD_BUTTON_B; PAD_BUTTON_X; PAD_BUTTON_Y;
                 PAD_TRIGGER_L; PAD_TRIGGER_R; PAD_BUTTON_START;
                 PAD_TRIGGER_Z; PAD_BUTTON_UP; PAD_BUTTON_DOWN;
                 PAD_BUTTON_LEFT; PAD_BUTTON_RIGHT]) m in
  (* Wiimote Padmap *)
  let m := when (selected consoleCtrl wiiCtrl CTRL_PAD CTRLR_WIIMOTE)
             (fill CTRL_PAD CTRLR_WIIMOTE
                [WPAD_BUTTON_B; WPAD_BUTTON_2; WPAD_BUTTON_1;
                 WPAD_BUTTON_A; 0x0000; 0x0000; WPAD_BUTTON_PLUS;
                 WPAD_BUTTON_MINUS; WPAD_BUTTON_RIGHT; WPAD_BUTTON_LEFT;
                 WPAD_BUTTON_UP; WPAD_BUTTON_DOWN]) m in
  (* Classic Controller Padmap *)
  let m := when (selected consoleCtrl wiiCtrl CTRL_PAD CTRLR_CLASSIC)
             (fill CTRL_PAD CTRLR_CLASSIC
                [WPAD_CLASSIC_BUTTON_A; WPAD_CLASSIC_BUTTON_B;
                 WPAD_CLASSIC_BUTTON_X; WPAD_CLASSIC_BUTTON_Y;
                 WPAD_CLASSIC_BUTTON_FULL_L; WPAD_CLASSIC_BUTTON_FULL_R;
                 WPAD_CLASSIC_BUTTON_PLUS; WPAD_CLASSIC_BUTTON_MINUS;
                 WPAD_CLASSIC_BUTTON_UP; WPAD_CLASSIC_BUTTON_DOWN;
                 WPAD_CLASSIC_BUTTON_LEFT; WPAD_CLASSIC_BUTTON_RIGHT]) m in
  (* Wii U Pro Padmap *)
  let m := when (selected consoleCtrl wiiCtrl CTRL_PAD CTRLR_WUPC)
             (fill CTRL_PAD CTRLR_WUPC
                [WPAD_CLASSIC_BUTTON_A; WPAD_CLASSIC_BUTTON_B;
                 WPAD_CLASSIC_BUTTON_X; WPAD_CLASSIC_BUTTON_Y;
                 WPAD_CLASSIC_BUTTON_FULL_L; WPAD_CLASSIC_BUTTON_FULL_R;
                 WPAD_CLASSIC_BUTTON_PLUS; WPAD_CLASSIC_BUTTON_MINUS;
                 WPAD_CLASSIC_BUTTON_UP; WPAD_CLASSIC_BUTTON_DOWN;
                 WPAD_CLASSIC_BUTTON_LEFT; WPAD_CLASSIC_BUTTON_RIGHT]) m in
  (* Wii U Gamepad Padmap *)
  let m := when (selected consoleCtrl wiiCtrl CTRL_PAD CTRLR_WIIDRC)
             (fill CTRL_PAD CTRLR_WIIDRC
                [WIIDRC_BUTTON_A; WIIDRC_BUTTON_B; WIIDRC_BUTTON_X;
                 WIIDRC_BUTTON_Y; WIIDRC_BUTTON_L; WIIDRC_BUTTON_R;
                 WIIDRC_BUTTON_PLUS; WIIDRC_BUTTON_MINUS;
                 WIIDRC_BUTTON_UP; WIIDRC_BUTTON_DOWN;
                 WIIDRC_BUTTON_LEFT; WIIDRC_BUTTON_RIGHT]) m in
  (* Nunchuk + wiimote Padmap *)
  let m := when (selected consoleCtrl wiiCtrl CTRL_PAD CTRLR_NUNCHUK)
             (fill CTRL_PAD CTRLR_NUNCHUK
                [WPAD_BUTTON_A; WPAD_BUTTON_B; WPAD_NUNCHUK_BUTTON_C;
                 WPAD_NUNCHUK_BUTTON_Z; WPAD_BUTTON_2; WPAD_BUTTON_1;
                 WPAD_BUTTON_PLUS; WPAD_BUTTON_MINUS; WPAD_BUTTON_UP;
                 WPAD_BUTTON_DOWN; WPAD_BUTTON_LEFT; WPAD_BUTTON_RIGHT]) m in
  (* Superscope : GC controller button mapping *)
  let m := when (selected consoleCtrl wiiCtrl CTRL_SCOPE CTRLR_GCPAD)
             (fill CTRL_SCOPE CTRLR_GCPAD
                [PAD_BUTTON_A; PAD_BUTTON_B; PAD_TRIGGER_Z; PAD_BUTTON_Y;
                 PAD_BUTTON_X; PAD_BUTTON_START]) m in
  (* Superscope : wiimote button mapping *)
  let m := when (selected consoleCtrl wiiCtrl CTRL_SCOPE CTRLR_WIIMOTE)
             (fill CTRL_SCOPE CTRLR_WIIMOTE
                [WPAD_BUTTON_B; WPAD_BUTTON_A; WPAD_BUTTON_MINUS;
                 WPAD_BUTTON_UP; WPAD_BUTTON_DOWN; WPAD_BUTTON_PLUS]) m in
  (* Superscope : Classic Controller button mapping *)
  let m := when (selected consoleCtrl wiiCtrl CTRL_SCOPE CTRLR_CLASSIC)
             (fill CTRL_SCOPE CTRLR_CLASSIC
                [WPAD_CLASSIC_BUTTON_B; WPAD_CLASSIC_BUTTON_A;
                 WPAD_CLASSIC_BUTTON_MINUS; WPAD_CLASSIC_BUTTON_Y;
                 WPAD_CLASSIC_BUTTON_X; WPAD_CLASSIC_BUTTON_PLUS]) m in
  (* Superscope : Wii U Pro Controller button mapping *)
  let m := when (selected consoleCtrl wiiCtrl CTRL_SCOPE CTRLR_WUPC)
             (fill CTRL_SCOPE CTRLR_WUPC
                [WPAD_CLASSIC_BUTTON_B; WPAD_CLASSIC_BUTTON_A;
                 WPAD_CLASSIC_BUTTON_MINUS; WPAD_CLASSIC_BUTTON_Y;
                 WPAD_CLASSIC_BUTTON_X; WPAD_CLASSIC_BUTTON_PLUS]) m in
  (* Superscope : Wii U Gamepad button mapping *)
  let m := when (selected consoleCtrl wiiCtrl CTRL_SCOPE CTRLR_WIIDRC)
             (fill CTRL_SCOPE CTRLR_WIIDRC
                [WIIDRC_BUTTON_B; WIIDRC_BUTTON_A; WIIDRC_BUTTON_MINUS;
                 WIIDRC_BUTTON_Y; WIIDRC_BUTTON_X; WIIDRC_BUTTON_PLUS]) m in
  (* Mouse : GC controller button mapping *)
  let m := when (selected consoleCtrl wiiCtrl CTRL_MOUSE CTRLR_GCPAD)
             (fill CTRL_MOUSE CTRLR_GCPAD
                [PAD_BUTTON_A; PAD_BUTTON_B]) m in
  (* Mouse : wiimote button mapping *)
  let m := when (selected consoleCtrl wiiCtrl CTRL_MOUSE CTRLR_WIIMOTE)
             (fill CTRL_MOUSE CTRLR_WIIMOTE
                [WPAD_BUTTON_A; WPAD_BUTTON_B]) m in
  (* Mouse : Classic Controller button mapping *)
  let m := when (selected consoleCtrl wiiCtrl CTRL_MOUSE CTRLR_CLASSIC)
             (fill CTRL_MOUSE CTRLR_CLASSIC
                [WPAD_CLASSIC_BUTTON_A; WPAD_CLASSIC_BUTTON_B]) m in
  (* Mouse : Wii U Pro Controller button mapping *)
  let m := when (selected consoleCtrl wiiCtrl CTRL_MOUSE CTRLR_WUPC)
             (fill CTRL_MOUSE CTRLR_WUPC
                [WPAD_CLASSIC_BUTTON_A; WPAD_CLASSIC_BUTTON_B]) m in
  (* Mouse : Wii U Gamepad button mapping *)
  let m := when (selected consoleCtrl wiiCtrl CTRL_MOUSE CTRLR_WIIDRC)
             (fill CTRL_MOUSE CTRLR_WIIDRC
                [WIIDRC_BUTTON_A; WIIDRC_BUTTON_B]) m in
  (* Justifier : GC controller button mapping *)
  let m := when (selected consoleCtrl wiiCtrl CTRL_JUST CTRLR_GCPAD)
             (fill CTRL_JUST CTRLR_GCPAD
                [PAD_BUTTON_B; PAD_BUTTON_A; PAD_BUTTON_START]) m in
  (* Justifier : wiimote button mapping *)
  let m := when (selected consoleCtrl wiiCtrl CTRL_JUST CTRLR_WIIMOTE)
             (fill CTRL_JUST CTRLR_WIIMOTE
                [WPAD_BUTTON_B; WPAD_BUTTON_A; WPAD_BUTTON_PLUS]) m in
  (* Justifier : Classic Controller button mapping *)
  let m := when (selected consoleCtrl wiiCtrl CTRL_JUST CTRLR_CLASSIC)
             (fill CTRL_JUST CTRLR_CLASSIC
                [WPAD_CLASSIC_BUTTON_B; WPAD_CLASSIC_BUTTON_A;
                 WPAD_CLASSIC_BUTTON_PLUS]) m in
  (* Justifier : Wii U Pro Controller button mapping *)
  let m := when (selected consoleCtrl wiiCtrl CTRL_JUST CTRLR_WUPC)
             (fill CTRL_JUST CTRLR_WUPC
                [WPAD_CLASSIC_BUTTON_B; WPAD_CLASSIC_BUTTON_A;
                 WPAD_CLASSIC_BUTTON_PLUS]) m in
  (* Justifier : Wii U Gamepad button mapping *)
  let m := when (selected consoleCtrl wiiCtrl CTRL_JUST CTRLR_WIIDRC)
             (fill CTRL_JUST CTRLR_WIIDRC
                [WIIDRC_BUTTON_B; WIIDRC_BUTTON_A; WIIDRC_BUTTON_PLUS]) m in
  m.

(** The canonical default sequence of every pair that has a block in
    [ResetControls], in source order. *)
Definition canonical_rows : list (Z * Z * list Z) :=
  [
    (CTRL_PAD, CTRLR_GCPAD,
      [PAD_BUTTON_A; PAD_BUTTON_B; PAD_BUTTON_X; PAD_BUTTON_Y;
       PAD_TRIGGER_L; PAD_TRIGGER_R; PAD_BUTTON_START; PAD_TRIGGER_Z;
       PAD_BUTTON_UP; PAD_BUTTON_DOWN; PAD_BUTTON_LEFT; PAD_BUTTON_RIGHT]);
    (CTRL_PAD, CTRLR_WIIMOTE,
      [WPAD_BUTTON_B; WPAD_BUTTON_2; WPAD_BUTTON_1; WPAD_BUTTON_A; 0x0000;
       0x0000; WPAD_BUTTON_PLUS; WPAD_BUTTON_MINUS; WPAD_BUTTON_RIGHT;
       WPAD_BUTTON_LEFT; WPAD_BUTTON_UP; WPAD_BUTTON_DOWN]);
    (CTRL_PAD, CTRLR_CLASSIC,
      [WPAD_CLASSIC_BUTTON_A; WPAD_CLASSIC_BUTTON_B; WPAD_CLASSIC_BUTTON_X;
       WPAD_CLASSIC_BUTTON_Y; WPAD_CLASSIC_BUTTON_FULL_L;
       WPAD_CLASSIC_BUTTON_FULL_R; WPAD_CLASSIC_BUTTON_PLUS;
       WPAD_CLASSIC_BUTTON_MINUS; WPAD_CLASSIC_BUTTON_UP;
       WPAD_CLASSIC_BUTTON_DOWN; WPAD_CLASSIC_BUTTON_LEFT;
       WPAD_CLASSIC_BUTTON_RIGHT]);
    (CTRL_PAD, CTRLR_WUPC,
      [WPAD_CLASSIC_BUTTON_A; WPAD_CLASSIC_BUTTON_B; WPAD_CLASSIC_BUTTON_X;
       WPAD_CLASSIC_BUTTON_Y; WPAD_CLASSIC_BUTTON_FULL_L;
       WPAD_CLASSIC_BUTTON_FULL_R; WPAD_CLASSIC_BUTTON_PLUS;
       WPAD_CLASSIC_BUTTON_MINUS; WPAD_CLASSIC_BUTTON_UP;
       WPAD_CLASSIC_BUTTON_DOWN; WPAD_CLASSIC_BUTTON_LEFT;
       WPAD_CLASSIC_BUTTON_RIGHT]);
    (CTRL_PAD, CTRLR_WIIDRC,
      [WIIDRC_BUTTON_A; WIIDRC_BUTTON_B; WIIDRC_BUTTON_X; WIIDRC_BUTTON_Y;
       WIIDRC_BUTTON_L; WIIDRC_BUTTON_R; WIIDRC_BUTTON_PLUS;
       WIIDRC_BUTTON_MINUS; WIIDRC_BUTTON_UP; WIIDRC_BUTTON_DOWN;
       WIIDRC_BUTTON_LEFT; WIIDRC_BUTTON_RIGHT]);
    (CTRL_PAD, CTRLR_NUNCHUK,
      [WPAD_BUTTON_A; WPAD_BUTTON_B; WPAD_NUNCHUK_BUTTON_C;
       WPAD_NUNCHUK_BUTTON_Z; WPAD_BUTTON_2; WPAD_BUTTON_1;
       WPAD_BUTTON_PLUS; WPAD_BUTTON_MINUS; WPAD_BUTTON_UP;
       WPAD_BUTTON_DOWN; WPAD_BUTTON_LEFT; WPAD_BUTTON_RIGHT]);
    (CTRL_SCOPE, CTRLR_GCPAD,
      [PAD_BUTTON_A; PAD_BUTTON_B; PAD_TRIGGER_Z; PAD_BUTTON_Y;
       PAD_BUTTON_X; PAD_BUTTON_START]);
    (CTRL_SCOPE, CTRLR_WIIMOTE,
      [WPAD_BUTTON_B; WPAD_BUTTON_A; WPAD_BUTTON_MINUS; WPAD_BUTTON_UP;
       WPAD_BUTTON_DOWN; WPAD_BUTTON_PLUS]);
    (CTRL_SCOPE, CTRLR_CLASSIC,
      [WPAD_CLASSIC_BUTTON_B; WPAD_CLASSIC_BUTTON_A;
       WPAD_CLASSIC_BUTTON_MINUS; WPAD_CLASSIC_BUTTON_Y;
       WPAD_CLASSIC_BUTTON_X; WPAD_CLASSIC_BUTTON_PLUS]);
    (CTRL_SCOPE, CTRLR_WUPC,
      [WPAD_CLASSIC_BUTTON_B; WPAD_CLASSIC_BUTTON_A;
       WPAD_CLASSIC_BUTTON_MINUS; WPAD_CLASSIC_BUTTON_Y;
       WPAD_CLASSIC_BUTTON_X; WPAD_CLASSIC_BUTTON_PLUS]);
    (CTRL_SCOPE, CTRLR_WIIDRC,
      [WIIDRC_BUTTON_B; WIIDRC_BUTTON_A; WIIDRC_BUTTON_MINUS;
       WIIDRC_BUTTON_Y; WIIDRC_BUTTON_X; WIIDRC_BUTTON_PLUS]);
    (CTRL_MOUSE, CTRLR_GCPAD,
      [PAD_BUTTON_A; PAD_BUTTON_B]);
    (CTRL_MOUSE, CTRLR_WIIMOTE,
      [WPAD_BUTTON_A; WPAD_BUTTON_B]);
    (CTRL_MOUSE, CTRLR_CLASSIC,
      [WPAD_CLASSIC_BUTTON_A; WPAD_CLASSIC_BUTTON_B]);
    (CTRL_MOUSE, CTRLR_WUPC,
      [WPAD_CLASSIC_BUTTON_A; WPAD_CLASSIC_BUTTON_B]);
    (CTRL_MOUSE, CTRLR_WIIDRC,
      [WIIDRC_BUTTON_A; WIIDRC_BUTTON_B]);
    (CTRL_JUST, CTRLR_GCPAD,
      [PAD_BUTTON_B; PAD_BUTTON_A; PAD_BUTTON_START]);
    (CTRL_JUST, CTRLR_WIIMOTE,
      [WPAD_BUTTON_B; WPAD_BUTTON_A; WPAD_BUTTON_PLUS]);
    (CTRL_JUST, CTRLR_CLASSIC,
      [WPAD_CLASSIC_BUTTON_B; WPAD_CLASSIC_BUTTON_A;
       WPAD_CLASSIC_BUTTON_PLUS]);
    (CTRL_JUST, CTRLR_WUPC,
      [WPAD_CLASSIC_BUTTON_B; WPAD_CLASSIC_BUTTON_A;
       WPAD_CLASSIC_BUTTON_PLUS]);
    (CTRL_JUST, CTRLR_WIIDRC,
      [WIIDRC_BUTTON_B; WIIDRC_BUTTON_A; WIIDRC_BUTTON_PLUS]) ].

(** One guarded block applied to the matrix. *)
Definition rebuild_step (consoleCtrl wiiCtrl : Z) (m : btnmap_t)
    (b : Z * Z * list Z) : btnmap_t :=
  when (selected consoleCtrl wiiCtrl b.1.1 b.1.2) (fill b.1.1 b.1.2 b.2) m.

(** Slot count of a console scheme, as the data model gives it:
    Pad=12, Superscope=6, Mouse=2, Justifier=3. *)
Definition slotCount (c : Z) : nat :=
  if c =? CTRL_PAD then 12
  else if c =? CTRL_SCOPE then 6
  else if c =? CTRL_MOUSE then 2
  else if c =? CTRL_JUST then 3
  else 0.

(** What the headers are expected to provide: the four scheme numbers are
    distinct indices of the first dimension of [btnmap]. *)
Definition ctrl_ok : Prop :=
  (0 <= CTRL_PAD < 4 ∧ 0 <= CTRL_SCOPE < 4 ∧
   0 <= CTRL_MOUSE < 4 ∧ 0 <= CTRL_JUST < 4) ∧
  (CTRL_PAD ≠ CTRL_SCOPE ∧ CTRL_PAD ≠ CTRL_MOUSE ∧ CTRL_PAD ≠ CTRL_JUST ∧
   CTRL_SCOPE ≠ CTRL_MOUSE ∧ CTRL_SCOPE ≠ CTRL_JUST ∧ CTRL_MOUSE ≠ CTRL_JUST).

(** The pairs that have a block in [ResetControls]: the Pad scheme with
    each of the six device families, the other three schemes with each
    family but the Nunchuk. *)
Definition supported (c p : Z) : Prop :=
  (c = CTRL_PAD ∧
   p ∈ [CTRLR_GCPAD; CTRLR_WIIMOTE; CTRLR_CLASSIC; CTRLR_WUPC; CTRLR_WIIDRC;
        CTRLR_NUNCHUK]) ∨
  (c ∈ [CTRL_SCOPE; CTRL_MOUSE; CTRL_JUST] ∧
   p ∈ [CTRLR_GCPAD; CTRLR_WIIMOTE; CTRLR_CLASSIC; CTRLR_WUPC; CTRLR_WIIDRC]).

(** Every button code a block stores. *)
Definition button_codes : list Z :=
  [ PAD_BUTTON_A; PAD_BUTTON_B; PAD_BUTTON_X; PAD_BUTTON_Y; PAD_TRIGGER_L;
    PAD_TRIGGER_R; PAD_BUTTON_START; PAD_TRIGGER_Z; PAD_BUTTON_UP;
    PAD_BUTTON_DOWN; PAD_BUTTON_LEFT; PAD_BUTTON_RIGHT;
    WPAD_BUTTON_B; WPAD_BUTTON_2; WPAD_BUTTON_1; WPAD_BUTTON_A;
    WPAD_BUTTON_PLUS; WPAD_BUTTON_MINUS; WPAD_BUTTON_RIGHT; WPAD_BUTTON_LEFT;
    WPAD_BUTTON_UP; WPAD_BUTTON_DOWN;
    WPAD_CLASSIC_BUTTON_A; WPAD_CLASSIC_BUTTON_B; WPAD_CLASSIC_BUTTON_X;
    WPAD_CLASSIC_BUTTON_Y; WPAD_CLASSIC_BUTTON_FULL_L;
    WPAD_CLASSIC_BUTTON_FULL_R; WPAD_CLASSIC_BUTTON_PLUS;
    WPAD_CLASSIC_BUTTON_MINUS; WPAD_CLASSIC_BUTTON_UP;
    WPAD_CLASSIC_BUTTON_DOWN; WPAD_CLASSIC_BUTTON_LEFT;
    WPAD_CLASSIC_BUTTON_RIGHT;
    WIIDRC_BUTTON_A; WIIDRC_BUTTON_B; WIIDRC_BUTTON_X; WIIDRC_BUTTON_Y;
    WIIDRC_BUTTON_L; WIIDRC_BUTTON_R; WIIDRC_BUTTON_PLUS; WIIDRC_BUTTON_MINUS;
    WIIDRC_BUTTON_UP; WIIDRC_BUTTON_DOWN; WIIDRC_BUTTON_LEFT;
    WIIDRC_BUTTON_RIGHT;
    WPAD_NUNCHUK_BUTTON_C; WPAD_NUNCHUK_BUTTON_Z ].

(** Modelled from the spec: the values of the button codes are not in the
    sources; a mapping entry that names a button is a physical bit-code,
    that is a [u32] other than the unmapped sentinel 0. *)
Definition codes_ok : Prop := Forall (λ v, 0 < v < 2 ^ 32) button_codes.

(** Where a canonical sequence may hold the unmapped sentinel 0: in slots
    4 and 5 of the (Pad, Wiimote) sequence, and nowhere else. *)
Definition zero_slots (c p : Z) (vals : list Z) : Prop :=
  if decide (c = CTRL_PAD ∧ p = CTRLR_WIIMOTE)
  then ∀ (i : nat) v, vals !! i = Some v → (v = 0 ↔ i = 4%nat ∨ i = 5%nat)
  else Forall (λ v, v ≠ 0) vals.

End ResetControls.

(** What one guarded block does to the row at position [(c', p')]: when
    the block is selected and addresses that row, its values are written
    from slot 0 on ([list_inserts] leaves the other slots alone and creates
    none). *)
Definition row_step (consoleCtrl wiiCtrl : Z) (c' p' : nat) (r : list Z)
    (b : Z * Z * list Z) : list Z :=
  if selected consoleCtrl wiiCtrl b.1.1 b.1.2
  then if decide (c' = Z.to_nat b.1.1 ∧ p' = Z.to_nat b.1.2)
       then list_inserts 0 b.2 r else r
  else r.

(** The first [n] slots of the row of the pair [(c, p)]. *)
Definition slots (n : nat) (c p : Z) (m : btnmap_t) : option (list Z) :=
  take n <$> row (Z.to_nat c) (Z.to_nat p) m.

(** A concrete header to run the model on: scheme numbers 0..3 and
    single-bit button codes for the five device families. *)
Definition sample_header : Header :=
  {| CTRL_PAD := 0; CTRL_MOUSE := 1; CTRL_SCOPE := 2; CTRL_JUST := 3;
     PAD_BUTTON_LEFT := 0x0001; PAD_BUTTON_RIGHT := 0x0002;
     PAD_BUTTON_DOWN := 0x0004; PAD_BUTTON_UP := 0x0008;
     PAD_TRIGGER_Z := 0x0010; PAD_TRIGGER_R := 0x0020;
     PAD_TRIGGER_L := 0x0040; PAD_BUTTON_A := 0x0100;
     PAD_BUTTON_B := 0x0200; PAD_BUTTON_X := 0x0400;
     PAD_BUTTON_Y := 0x0800; PAD_BUTTON_START := 0x1000;
     WPAD_BUTTON_2 := 0x0001; WPAD_BUTTON_1 := 0x0002;
     WPAD_BUTTON_B := 0x0004; WPAD_BUTTON_A := 0x0008;
     WPAD_BUTTON_MINUS := 0x0010; WPAD_BUTTON_LEFT := 0x0100;
     WPAD_BUTTON_RIGHT := 0x0200; WPAD_BUTTON_DOWN := 0x0400;
     WPAD_BUTTON_UP := 0x0800; WPAD_BUTTON_PLUS := 0x1000;
     WPAD_NUNCHUK_BUTTON_Z := 0x00010000;
     WPAD_NUNCHUK_BUTTON_C := 0x00020000;
     WPAD_CLASSIC_BUTTON_UP := 0x00010000;
     WPAD_CLASSIC_BUTTON_LEFT := 0x00020000;
     WPAD_CLASSIC_BUTTON_X := 0x00080000;
     WPAD_CLASSIC_BUTTON_A := 0x00100000;
     WPAD_CLASSIC_BUTTON_Y := 0x00200000;
     WPAD_CLASSIC_BUTTON_B := 0x00400000;
     WPAD_CLASSIC_BUTTON_FULL_R := 0x02000000;
     WPAD_CLASSIC_BUTTON_PLUS := 0x04000000;
     WPAD_CLASSIC_BUTTON_MINUS := 0x10000000;
     WPAD_CLASSIC_BUTTON_FULL_L := 0x20000000;
     WPAD_CLASSIC_BUTTON_DOWN := 0x40000000;
     WPAD_CLASSIC_BUTTON_RIGHT := 0x80000000;
     WIIDRC_BUTTON_A := 0x8000; WIIDRC_BUTTON_B := 0x4000;
     WIIDRC_BUTTON_X := 0x2000; WIIDRC_BUTTON_Y := 0x1000;
     WIIDRC_BUTTON_LEFT := 0x0800; WIIDRC_BUTTON_RIGHT := 0x0400;
     WIIDRC_BUTTON_UP := 0x0200; WIIDRC_BUTTON_DOWN := 0x0100;
     WIIDRC_BUTTON_L := 0x0020; WIIDRC_BUTTON_R := 0x0010;
     WIIDRC_BUTTON_PLUS := 0x0008; WIIDRC_BUTTON_MINUS := 0x0004 |}.

(** A matrix whose every slot holds 7, a value no block stores under
    [sample_header]. *)
Definition btnmap7 : btnmap_t :=
  replicate NUM_CTRL (replicate NUM_CTRLR (replicate NUM_SLOTS 7)).

From Stdlib Require Import Ascii.
From stdpp Require Import strings.

Local Open Scope Z_scope.

(** ** tests/unit/test_button_mapping.cpp: the rest of the file *)

(** struct BtnMap; a [const char*] is [None] for [nullptr] and otherwise
    the string it points to. *)
Record BtnMap : Type := mkBtnMap {
  btn : Z;
  name : option string
}.

(** struct CtrlrMap; [map] is the array [BtnMap map[15]]. *)
Record CtrlrMap : Type := mkCtrlrMap {
  type : Z;
  num_btns : Z;
  map : list BtnMap
}.

Definition CTRLR_MAP_SIZE : nat := 15.

Definition wf_CtrlrMap (c : CtrlrMap) : Prop := length (map c) = CTRLR_MAP_SIZE.

(** [const char* TestGetControllerName(int controller)] *)
Definition TestGetControllerName (controller : Z) : string :=
  if controller =? CTRLR_GCPAD then "GameCube Controller"
  else if controller =? CTRLR_WIIMOTE then "Wiimote"
  else if controller =? CTRLR_NUNCHUK then "Nunchuk + Wiimote"
  else if controller =? CTRLR_CLASSIC then "Classic Controller"
  else if controller =? CTRLR_WUPC then "Wii U Pro Controller"
  else if controller =? CTRLR_WIIDRC then "Wii U Gamepad"
  else "Unknown Controller".

(** [int TestGetControllerButtonCount(int controller)] *)
Definition TestGetControllerButtonCount (controller : Z) : Z :=
  if controller =? CTRLR_GCPAD then 12
  else if controller =? CTRLR_WIIMOTE then 8
  else if controller =? CTRLR_NUNCHUK then 10
  else if controller =? CTRLR_CLASSIC then 14
  else if controller =? CTRLR_WUPC then 14
  else if controller =? CTRLR_WIIDRC then 14
  else 0.

(** [ctrlr->map[i].btn = v] and [ctrlr->map[i].name = s]. *)
Definition set_btn (i : nat) (v : Z) (c : CtrlrMap) : CtrlrMap :=
  mkCtrlrMap (type c) (num_btns c)
             (alter (λ e, mkBtnMap v (name e)) i (map c)).

Definition set_name (i : nat) (s : option string) (c : CtrlrMap) : CtrlrMap :=
  mkCtrlrMap (type c) (num_btns c)
             (alter (λ e, mkBtnMap (btn e) s) i (map c)).

(** [bool TestMapButton(CtrlrMap* ctrlr, int buttonIndex, u32 buttonValue,
                        const char* buttonName)]: the returned flag and the
    object behind [ctrlr] after the call ([None] for [nullptr]). *)
Definition TestMapButton (ctrlr : option CtrlrMap) (buttonIndex buttonValue : Z)
    (buttonName : option string) : bool * option CtrlrMap :=
  match ctrlr with
  | None => (false, None)
  | Some c =>
      if (buttonIndex <? 0) || (buttonIndex >=? 15) then (false, Some c)
      else if buttonIndex >=? num_btns c then (false, Some c)
      else
        let c := set_btn (Z.to_nat buttonIndex) buttonValue c in
        let c := set_name (Z.to_nat buttonIndex) buttonName c in
        (true, Some c)
  end.

(** [bool TestIsSNESButton(u32 button)]; the file declares the enum
    SNESButtons again, with the values it has in test_input.cpp. *)
Definition TestIsSNESButton (button : Z) : bool :=
  if button =? SNES_A then true
  else if button =? SNES_B then true
  else if button =? SNES_X then true
  else if button =? SNES_Y then true
  else if button =? SNES_L then true
  else if button =? SNES_R then true
  else if button =? SNES_START then true
  else if button =? SNES_SELECT then true
  else if button =? SNES_UP then true
  else if button =? SNES_DOWN then true
  else if button =? SNES_LEFT then true
  else if button =? SNES_RIGHT then true
  else false.


(** ** tests/unit/test_fileop.cpp *)

(** A C string is the list of its characters before the terminating NUL; a
    [char*] argument is [None] for [nullptr]. A pointer into a string is the
    offset of the character it addresses. *)
Abbreviation cstr := (list ascii).

(** [strchr(s, ch)] and [strrchr(s, ch)] for a character other than NUL:
    the offset of the first, respectively last, occurrence. *)
Fixpoint strchr (s : cstr) (ch : ascii) : option nat :=
  match s with
  | [] => None
  | a :: s' => if decide (a = ch) then Some 0%nat else S <$> strchr s' ch
  end.

Fixpoint strrchr (s : cstr) (ch : ascii) : option nat :=
  match s with
  | [] => None
  | a :: s' =>
      match strrchr s' ch with
      | Some k => Some (S k)
      | None => if decide (a = ch) then Some 0%nat else None
      end
  end.

(** [bool TestStripDevice(const char* path, char* result)]: the returned
    flag and the string in [result] after the call, the buffer being large
    enough for what [strcpy] writes. *)
Definition TestStripDevice (path result : option cstr) : bool * option cstr :=
  match path, result with
  | Some p, Some _ =>
      match strchr p ":"%char with
      | Some colonPos =>
          if decide (p !! (colonPos + 1)%nat = Some "/"%char)
          then (true, Some (drop (colonPos + 1) p))
          else (false, Some p)
      | None => (false, Some p)
      end
  | _, _ => (false, result)
  end.

(** [bool TestCreatePath(const char* dir, const char* filename,
                         char* result)] *)
Definition TestCreatePath (dir filename result : option cstr)
  : bool * option cstr :=
  match dir, filename, result with
  | Some d, Some f, Some _ =>
      let res := d in
      let len := length res in
      let res :=
        if (0 <? len)%nat
           && negb (bool_decide (res !! (len - 1)%nat = Some "/"%char))
        then res ++ ["/"%char] else res in
      (true, Some (res ++ f))
  | _, _, _ => (false, result)
  end.

(** The separator [TestCreatePath] puts after a directory. *)
Definition path_sep (d : cstr) : cstr :=
  match last d with
  | Some c => if decide (c = "/"%char) then [] else ["/"%char]
  | None => []
  end.

(** [const char* TestGetFileExtension(const char* filename)] *)
Definition TestGetFileExtension (filename : option cstr) : option cstr :=
  match filename with
  | None => None
  | Some f =>
      match strrchr f "."%char with
      | None => Some []
      | Some lastDot =>
          if decide (lastDot = 0%nat) then Some []
          else Some (drop (lastDot + 1) f)
      end
  end.

(** Buffers of bytes; [memcpy(dest, src, n)] and [memset(dest + off, v, n)]
    on the content of [dest]. *)
Definition memcpy (dest src : list Z) (n : nat) : list Z :=
  list_inserts 0 (take n src) dest.

Definition memset (dest : list Z) (off : nat) (v : Z) (n : nat) : list Z :=
  list_inserts off (replicate n v) dest.

(** [bool TestSafeMemcpy(void* dest, const void* src, size_t destSize,
                         size_t srcSize)] *)
Definition TestSafeMemcpy (dest src : option (list Z)) (destSize srcSize : nat)
  : bool * option (list Z) :=
  match dest, src with
  | Some d, Some s =>
      if (destSize =? 0)%nat || (srcSize =? 0)%nat then (false, Some d)
      else
        let maxCopy := (destSize - 1)%nat in
        let copySize := if (srcSize <? maxCopy)%nat then srcSize else maxCopy in
        let d := memcpy d s copySize in
        let d := <[copySize := 0]> d in
        (true, Some d)
  | _, _ => (false, dest)
  end.

(** ** tests/unit/test_memory.cpp *)

(** [bool TestSafeBufferCopy(void* dest, size_t destSize, const void* src,
                             size_t srcSize)] *)
Definition TestSafeBufferCopy (dest : option (list Z)) (destSize : nat)
    (src : option (list Z)) (srcSize : nat) : bool * option (list Z) :=
  match dest, src with
  | Some d, Some s =>
      if (destSize =? 0)%nat then (false, Some d)
      else
        let copySize := if (srcSize <? destSize)%nat then srcSize else destSize in
        let d := memcpy d s copySize in
        let d :=
          if (copySize <? destSize)%nat
          then memset d copySize 0 (destSize - copySize) else d in
        (true, Some d)
  | _, _ => (false, dest)
  end.

(** [strlen] of the string held in a buffer: the offset of the first NUL,
    if the buffer has one. *)
Fixpoint buf_strlen (buf : list Z) : option nat :=
  match buf with
  | [] => None
  | b :: buf' => if decide (b = 0) then Some 0%nat else S <$> buf_strlen buf'
  end.


(** ** tests/unit/test_filter.cpp *)

(** enum FilterType; a value of the type need not be one of the
    enumerators, which is what the [default] labels are for. *)
Definition FILTER_NONE : Z := 0.
Definition FILTER_HQ2X : Z := 1.
Definition FILTER_HQ2X_SOFT : Z := 2.
Definition FILTER_HQ2X_BOLD : Z := 3.
Definition FILTER_SCANLINES : Z := 4.
Definition FILTER_TV_MODE : Z := 5.
Definition FILTER_2XSAI : Z := 6.
Definition FILTER_SUPER2XSAI : Z := 7.
Definition FILTER_SUPEREAGLE : Z := 8.
Definition FILTER_LQ2X : Z := 9.
Definition FILTER_2XBRSAI : Z := 10.
Definition FILTER_2XBRZ : Z := 11.

(** struct GraphicsFormat *)
Record GraphicsFormat : Type := mkGraphicsFormat {
  width : Z;
  height : Z;
  pitch : Z;
  bpp : Z
}.

(** The arithmetic of this file is on [int]; signed overflow being
    undefined, the model computes in [Z] and is exact where every product
    and sum lies between [INT_MIN] and [INT_MAX]. *)
Definition INT_MAX : Z := 2147483647.
Definition INT_MIN : Z := -2147483648.

(** The conversion of an [int] to [size_t], on the 64-bit host the unit
    tests are built for. *)
Definition SIZE_WIDTH : Z := 64.
Definition to_size_t (v : Z) : Z := v mod 2 ^ SIZE_WIDTH.

(** [int TestGetFilterScale(FilterType filter)] *)
Definition TestGetFilterScale (filter : Z) : Z :=
  if filter =? FILTER_NONE then 1
  else if filter =? FILTER_HQ2X then 2
  else if filter =? FILTER_HQ2X_SOFT then 2
  else if filter =? FILTER_HQ2X_BOLD then 2
  else if filter =? FILTER_2XSAI then 2
  else if filter =? FILTER_SUPER2XSAI then 2
  else if filter =? FILTER_SUPEREAGLE then 2
  else if filter =? FILTER_LQ2X then 2
  else if filter =? FILTER_2XBRSAI then 2
  else if filter =? FILTER_2XBRZ then 2
  else if filter =? FILTER_SCANLINES then 1
  else if filter =? FILTER_TV_MODE then 1
  else 1.

(** [bool TestValidateGraphicsFormat(const GraphicsFormat* format)];
    [bpp / 8] is the truncating division of C. The product
    [width * (bpp / 8)], evaluated when width and height are positive, is
    that of C where it lies within [int]. *)
Definition TestValidateGraphicsFormat (format : option GraphicsFormat) : bool :=
  match format with
  | None => false
  | Some f =>
      (width f >? 0) && (height f >? 0) &&
      (pitch f >=? width f * (bpp f ÷ 8)) &&
      ((bpp f =? 16) || (bpp f =? 32))
  end.

(** [GraphicsFormat TestCalculateOutputFormat(const GraphicsFormat* input,
                                              FilterType filter)] *)
Definition TestCalculateOutputFormat (input : option GraphicsFormat)
    (filter : Z) : GraphicsFormat :=
  match input with
  | None => mkGraphicsFormat 0 0 0 0
  | Some i =>
      let scale := TestGetFilterScale filter in
      let out_width := width i * scale in
      let out_height := height i * scale in
      let out_bpp := bpp i in
      let out_pitch := out_width * (out_bpp ÷ 8) in
      mkGraphicsFormat out_width out_height out_pitch out_bpp
  end.

(** [bool TestIs2xFilter(FilterType filter)] *)
Definition TestIs2xFilter (filter : Z) : bool := TestGetFilterScale filter =? 2.

(** [bool TestFilterRequiresDoubleBuffer(FilterType filter)] *)
Definition TestFilterRequiresDoubleBuffer (filter : Z) : bool :=
  if filter =? FILTER_HQ2X then true
  else if filter =? FILTER_HQ2X_SOFT then true
  else if filter =? FILTER_HQ2X_BOLD then true
  else if filter =? FILTER_2XSAI then true
  else if filter =? FILTER_SUPER2XSAI then true
  else if filter =? FILTER_SUPEREAGLE then true
  else if filter =? FILTER_LQ2X then true
  else if filter =? FILTER_2XBRSAI then true
  else if filter =? FILTER_2XBRZ then true
  else false.

(** [size_t TestCalculateFilterMemorySize(int width, int height, int scale)]:
    the [int] product, converted to the [size_t] that is returned. *)
Definition TestCalculateFilterMemorySize (width height scale : Z) : Z :=
  to_size_t (width * scale * height * scale * 2).

(** A [u16] cell of a buffer of bytes: element [k] of the buffer read as an
    array of [u16] occupies the bytes [2k] and [2k+1], and a pixel is moved
    as that pair of bytes. An access
    outside the buffer is undefined and gives [None]. *)
Definition read_u16 (buf : list Z) (k : nat) : option (Z * Z) :=
  b0 ← buf !! (2 * k)%nat; b1 ← buf !! (2 * k + 1)%nat; Some (b0, b1).

Definition write_u16 (buf : list Z) (k : nat) (px : Z * Z) : option (list Z) :=
  if (2 * k + 1 <? length buf)%nat
  then Some (<[(2 * k + 1)%nat := px.2]> (<[(2 * k)%nat := px.1]> buf))
  else None.

(** Pixel (x, y) of an image of 16 bits per pixel laid out as [format]
    says: the two bytes at offset [y * pitch + 2 * x]. *)
Definition pixel16 (buf : list Z) (format : GraphicsFormat) (x y : nat)
  : option (Z * Z) :=
  let off := Z.to_nat (Z.of_nat y * pitch format + 2 * Z.of_nat x) in
  b0 ← buf !! off; b1 ← buf !! (off + 1)%nat; Some (b0, b1).

(** [for (int i = 0; i < n; i++) body] over a state that an undefined
    access invalidates. *)
Fixpoint for_each (idx : list nat) (body : nat → list Z → option (list Z))
    (out : list Z) : option (list Z) :=
  match idx with
  | [] => Some out
  | i :: rest => out' ← body i out; for_each rest body out'
  end.

Definition for_loop (n : Z) (body : nat → list Z → option (list Z))
    (out : list Z) : option (list Z) :=
  for_each (seq 0 (Z.to_nat n)) body out.

(** The body of the two loops of [TestApplyFilter] for the pixel (x, y). *)
Definition duplicate_pixel (input : list Z) (format : GraphicsFormat)
    (scale : Z) (y x : nat) (out : list Z) : option (list Z) :=
  pixel ← read_u16 input
            (Z.to_nat (Z.of_nat y * (pitch format ÷ 2) + Z.of_nat x));
  let dst_y := Z.of_nat y * scale in
  let dst_x := Z.of_nat x * scale in
  let dst_pitch := width format * scale in
  out ← write_u16 out (Z.to_nat (dst_y * dst_pitch + dst_x)) pixel;
  out ← write_u16 out (Z.to_nat (dst_y * dst_pitch + dst_x + 1)) pixel;
  out ← write_u16 out (Z.to_nat ((dst_y + 1) * dst_pitch + dst_x)) pixel;
  write_u16 out (Z.to_nat ((dst_y + 1) * dst_pitch + dst_x + 1)) pixel.

(** [bool TestApplyFilter(const void* input, void* output,
                          const GraphicsFormat* format, FilterType filter)]:
    [None] when the call runs into an undefined access, otherwise the flag
    and the content of [output] after the call. The two buffers do not
    overlap. *)
Definition TestApplyFilter (input output : option (list Z))
    (format : option GraphicsFormat) (filter : Z)
  : option (bool * option (list Z)) :=
  match input, output, format with
  | Some inp, Some out, Some f =>
      if negb (TestValidateGraphicsFormat (Some f)) then Some (false, Some out)
      else
        let input_size := height f * pitch f in
        let scale := TestGetFilterScale filter in
        if scale =? 1 then
          if (Z.to_nat input_size <=? length inp)%nat
             && (Z.to_nat input_size <=? length out)%nat
          then Some (true, Some (memcpy out inp (Z.to_nat input_size)))
          else None
        else
          out' ← for_loop (height f) (λ y out,
                    for_loop (width f) (λ x out,
                      duplicate_pixel inp f scale y x out) out) out;
          Some (true, Some out')
  | _, _, _ => Some (false, output)
  end.

(** * Properties *)

(** ** Bit-level facts about [u32] values *)

Lemma testbit_u32_max n : 0 <= n → Z.testbit u32_max n = (n <? 32).
Proof.
  intros Hn. change u32_max with (Z.ones 32).
  apply Z.testbit_ones_nonneg; lia.
Qed.

Lemma testbit_u32_high a n : is_u32 a → 32 <= n → Z.testbit a n = false.
Proof.
  intros [Ha0 Ha] Hn.
  destruct (decide (a = 0)) as [->|Hne]; [apply Z.testbit_0_l|].
  apply Z.bits_above_log2; [lia|].
  assert (Z.log2 a < 32) by (apply Z.log2_lt_pow2; lia). lia.
Qed.

Lemma testbit_not32 a n :
  0 <= n → Z.testbit (not32 a) n = negb (Z.testbit a n) && (n <? 32).
Proof.
  intros Hn. unfold not32.
  by rewrite Z.land_spec, Z.lnot_spec, testbit_u32_max by lia.
Qed.

(** On a [u32] left operand the 32-bit complement and the complement of [Z]
    select the same bits. *)
Lemma land_not32 a b : is_u32 a → Z.land a (not32 b) = Z.land a (Z.lnot b).
Proof.
  intros Ha. apply Z.bits_inj'. intros n Hn.
  rewrite !Z.land_spec, testbit_not32, Z.lnot_spec by lia.
  destruct (Z.ltb_spec n 32) as [Hlt|Hge].
  - by rewrite andb_true_r.
  - by rewrite (testbit_u32_high a n Ha Hge).
Qed.

Lemma single_bit_testbit a :
  single_bit a → ∃ k, 0 <= k < 32 ∧ ∀ n, 0 <= n → Z.testbit a n = (k =? n).
Proof.
  intros (k & Hk & ->). exists k. split; [done|].
  intros n Hn. apply Z.pow2_bits_eqb. lia.
Qed.

Lemma single_bit_u32 a : single_bit a → is_u32 a.
Proof.
  intros (k & Hk & ->). split; [lia|].
  apply Z.pow_lt_mono_r; lia.
Qed.

(** [(a|c) & ~(a|b) = c] for distinct single bits. *)
Lemma ldiff_single_bits a b c :
  single_bit a → single_bit b → single_bit c → a ≠ c → b ≠ c →
  Z.land (Z.lor a c) (Z.lnot (Z.lor a b)) = c.
Proof.
  intros Ha Hb Hc Hac Hbc.
  destruct (single_bit_testbit a Ha) as (ka & Hka & Ta).
  destruct (single_bit_testbit b Hb) as (kb & Hkb & Tb).
  destruct (single_bit_testbit c Hc) as (kc & Hkc & Tc).
  assert (ka ≠ kc).
  { intros ->. destruct Ha as (k1 & ? & ->), Hc as (k2 & ? & ->).
    specialize (Ta k1 ltac:(lia)). specialize (Tc k1 ltac:(lia)).
    rewrite Z.pow2_bits_true in Ta by lia.
    rewrite Z.pow2_bits_eqb in Tc by lia.
    apply Hac. f_equal. lia. }
  assert (kb ≠ kc).
  { intros ->. destruct Hb as (k1 & ? & ->), Hc as (k2 & ? & ->).
    specialize (Tb k1 ltac:(lia)). specialize (Tc k1 ltac:(lia)).
    rewrite Z.pow2_bits_true in Tb by lia.
    rewrite Z.pow2_bits_eqb in Tc by lia.
    apply Hbc. f_equal. lia. }
  apply Z.bits_inj'. intros n Hn.
  rewrite Z.land_spec, Z.lnot_spec, !Z.lor_spec, Ta, Tb, Tc by lia.
  destruct (Z.eqb_spec ka n), (Z.eqb_spec kb n), (Z.eqb_spec kc n);
    simpl; try reflexivity; lia.
Qed.

(** ** The edge tracker *)

(** The store after a call with two valid pointers, aliased or not. *)
Lemma TestProcessButtonInput_valid (h : heap) c p cur prev :
  h !! c = Some cur → h !! p = Some prev →
  TestProcessButtonInput (Some c) (Some p) h =
  Some (true,
        <[c := mkControllerState
                 (buttons_held cur)
                 (Z.land (buttons_held cur) (not32 (buttons_held prev)))
                 (Z.land (buttons_held prev) (not32 (buttons_held cur)))
                 (stick_x cur) (stick_y cur) (connected cur)]> h).
Proof.
  intros Hc Hp. unfold TestProcessButtonInput.
  rewrite Hc, Hp. simpl.
  assert (c < length h)%nat by (by eapply lookup_lt_Some).
  rewrite list_lookup_insert_eq by done. simpl.
  destruct (decide (c = p)) as [->|Hne].
  - rewrite list_lookup_insert_eq by done. simpl.
    assert (prev = cur) by congruence. subst prev.
    by rewrite list_insert_insert_eq.
  - rewrite list_lookup_insert_ne, Hp by done. simpl.
    by rewrite list_insert_insert_eq.
Qed.

(** C3. For 32-bit masks behind two valid (non-null) state references the
    call succeeds, writes only the current state, and leaves in it
    pressed = current & ~previous and released = previous & ~current.
    In particular previous=0, current=A gives (A, 0); previous=A, current=0
    gives (0, A); previous=A|B, current=A|C for distinct single bits gives
    pressed=C and released=B. *)
Theorem edge_delta_formula (h : heap) c p cur prev :
  h !! c = Some cur → h !! p = Some prev →
  is_u32 (buttons_held cur) → is_u32 (buttons_held prev) →
  ∃ cur',
    TestProcessButtonInput (Some c) (Some p) h = Some (true, <[c := cur']> h) ∧
    buttons_held cur' = buttons_held cur ∧
    buttons_pressed cur' =
      Z.land (buttons_held cur) (Z.lnot (buttons_held prev)) ∧
    buttons_released cur' =
      Z.land (buttons_held prev) (Z.lnot (buttons_held cur)) ∧
    (buttons_held prev = 0 →
       buttons_pressed cur' = buttons_held cur ∧ buttons_released cur' = 0) ∧
    (buttons_held cur = 0 →
       buttons_pressed cur' = 0 ∧ buttons_released cur' = buttons_held prev) ∧
    (∀ A B C, single_bit A → single_bit B → single_bit C →
       A ≠ B → A ≠ C → B ≠ C →
       buttons_held prev = Z.lor A B → buttons_held cur = Z.lor A C →
       buttons_pressed cur' = C ∧ buttons_released cur' = B).
Proof.
  intros Hc Hp Ucur Uprev.
  eexists. split; [by apply TestProcessButtonInput_valid|]. simpl.
  rewrite !land_not32 by done.
  split; [reflexivity|]. split; [reflexivity|]. split; [reflexivity|].
  split; [|split].
  - intros ->. change (Z.lnot 0) with (-1).
    by rewrite Z.land_m1_r, Z.land_0_l.
  - intros ->. change (Z.lnot 0) with (-1).
    by rewrite Z.land_m1_r, Z.land_0_l.
  - intros A B C HA HB HC HAB HAC HBC -> ->. split.
    + by apply ldiff_single_bits.
    + apply ldiff_single_bits; done.
Qed.

(** The first frame of the test [input_button_sequence], with the two
    states in one array. *)
Lemma edge_delta_formula_witness :
  ∃ cur',
    TestProcessButtonInput (Some 1%nat) (Some 0%nat)
      [mkControllerState 0 0 0 0 0 false;
       mkControllerState SNES_A 0 0 0 0 false]
    = Some (true,
            <[1%nat := cur']> [mkControllerState 0 0 0 0 0 false;
                               mkControllerState SNES_A 0 0 0 0 false]) ∧
    buttons_pressed cur' = SNES_A ∧ buttons_released cur' = 0.
Proof.
  destruct (edge_delta_formula
              [mkControllerState 0 0 0 0 0 false;
               mkControllerState SNES_A 0 0 0 0 false]
              1 0 (mkControllerState SNES_A 0 0 0 0 false)
              (mkControllerState 0 0 0 0 0 false))
    as (cur' & Hrun & _ & _ & _ & Hzero & _).
  - reflexivity.
  - reflexivity.
  - unfold is_u32, SNES_A; simpl; lia.
  - unfold is_u32; simpl; lia.
  - exists cur'. split; [exact Hrun|]. apply Hzero. reflexivity.
Defined.

(** C6. A call whose current or previous reference is null returns false
    and leaves the store as it was, whatever the other argument is. *)
Theorem null_reference_fails_closed :
  (∀ (previous : ptr) (h : heap),
     TestProcessButtonInput nullptr previous h = Some (false, h)) ∧
  (∀ (current : ptr) (h : heap),
     TestProcessButtonInput current nullptr h = Some (false, h)).
Proof.
  split.
  - intros previous h. reflexivity.
  - intros [c|] h; reflexivity.
Qed.

(** C10. The edge outputs are disjoint and bounded: no bit is both pressed
    and released, pressed lies within current and released within
    previous. *)
Theorem edge_outputs_disjoint_bounded (h : heap) c p cur prev :
  h !! c = Some cur → h !! p = Some prev →
  ∃ cur',
    TestProcessButtonInput (Some c) (Some p) h = Some (true, <[c := cur']> h) ∧
    Z.land (buttons_pressed cur') (buttons_released cur') = 0 ∧
    Z.land (buttons_pressed cur') (not32 (buttons_held cur)) = 0 ∧
    Z.land (buttons_released cur') (not32 (buttons_held prev)) = 0 ∧
    Z.land (buttons_pressed cur') (Z.lnot (buttons_held cur)) = 0 ∧
    Z.land (buttons_released cur') (Z.lnot (buttons_held prev)) = 0.
Proof.
  intros Hc Hp.
  eexists. split; [by apply TestProcessButtonInput_valid|]. simpl.
  repeat split; apply Z.bits_inj'; intros n Hn;
    rewrite ?Z.land_spec, ?testbit_not32, ?Z.lnot_spec, Z.bits_0 by lia;
    destruct (Z.testbit (buttons_held cur) n),
             (Z.testbit (buttons_held prev) n), (n <? 32); reflexivity.
Qed.

(** The second frame of the test [input_button_sequence]: A held, B newly
    pressed. *)
Lemma edge_outputs_disjoint_bounded_witness :
  ∃ cur',
    TestProcessButtonInput (Some 1%nat) (Some 0%nat)
      [mkControllerState SNES_A SNES_A 0 0 0 false;
       mkControllerState (Z.lor SNES_A SNES_B) 0 0 0 0 false]
    = Some (true,
            <[1%nat := cur']>
              [mkControllerState SNES_A SNES_A 0 0 0 false;
               mkControllerState (Z.lor SNES_A SNES_B) 0 0 0 0 false]) ∧
    Z.land (buttons_pressed cur') (buttons_released cur') = 0.
Proof.
  destruct (edge_outputs_disjoint_bounded
              [mkControllerState SNES_A SNES_A 0 0 0 false;
               mkControllerState (Z.lor SNES_A SNES_B) 0 0 0 0 false]
              1 0 (mkControllerState (Z.lor SNES_A SNES_B) 0 0 0 0 false)
              (mkControllerState SNES_A SNES_A 0 0 0 false))
    as (cur' & Hrun & Hdisj & _).
  - reflexivity.
  - reflexivity.
  - exists cur'. split; [exact Hrun | exact Hdisj].
Defined.

(** ** The analog-to-digital converter *)

Lemma testbit_dpad_mask n :
  n ≠ 8 → n ≠ 9 → n ≠ 10 → n ≠ 11 → Z.testbit dpad_mask n = false.
Proof.
  intros. destruct (Z.ltb_spec n 0) as [Hneg|Hpos].
  - by apply Z.testbit_neg_r.
  - destruct (Z.ltb_spec n 8) as [Hlo|Hhi].
    + assert (Hn : n = 0 ∨ n = 1 ∨ n = 2 ∨ n = 3 ∨
                   n = 4 ∨ n = 5 ∨ n = 6 ∨ n = 7) by lia.
      destruct Hn as [->|[->|[->|[->|[->|[->|[->| ->]]]]]]]; reflexivity.
    + apply Z.bits_above_log2; [done|].
      change (Z.log2 dpad_mask) with 11. lia.
Qed.

Lemma TestStickToDigital_within_mask x y t :
  Z.land (TestStickToDigital x y t) dpad_mask = TestStickToDigital x y t.
Proof.
  unfold TestStickToDigital.
  destruct (x <? - t), (x >? t), (y <? - t), (y >? t); reflexivity.
Qed.

Ltac unfold_stick :=
  unfold TestStickToDigital, SNES_LEFT, SNES_RIGHT, SNES_DOWN, SNES_UP.

(** C7. [TestStickToDigital] sets Left iff x < -threshold, Right iff
    x > threshold, Down iff y < -threshold, Up iff y > threshold, and no other
    bit; an axis within [-threshold, threshold] sets neither of its bits;
    (-60,0,50) gives Left, (60,60,50) gives Right|Up, (10,-10,50) gives 0. *)
Theorem stick_to_digital_bits x y threshold :
  let d := TestStickToDigital x y threshold in
  (Z.land d SNES_LEFT = SNES_LEFT ↔ x < - threshold) ∧
  (Z.land d SNES_RIGHT = SNES_RIGHT ↔ x > threshold) ∧
  (Z.land d SNES_DOWN = SNES_DOWN ↔ y < - threshold) ∧
  (Z.land d SNES_UP = SNES_UP ↔ y > threshold) ∧
  (∀ n, n ≠ 8 → n ≠ 9 → n ≠ 10 → n ≠ 11 → Z.testbit d n = false) ∧
  (- threshold <= x <= threshold →
     Z.land d (Z.lor SNES_LEFT SNES_RIGHT) = 0) ∧
  (- threshold <= y <= threshold →
     Z.land d (Z.lor SNES_DOWN SNES_UP) = 0) ∧
  TestStickToDigital (-60) 0 50 = SNES_LEFT ∧
  TestStickToDigital 60 60 50 = Z.lor SNES_RIGHT SNES_UP ∧
  TestStickToDigital 10 (-10) 50 = 0.
Proof.
  intros d.
  split; [|split; [|split; [|split; [|split; [|split; [|split]]]]]].
  - subst d. unfold_stick.
    destruct (Z.ltb_spec x (- threshold)), (x >? threshold),
      (y <? - threshold), (y >? threshold); simpl; split; intros;
      first [ reflexivity | lia | discriminate ].
  - subst d. unfold_stick. rewrite (Z.gtb_ltb x).
    destruct (x <? - threshold), (Z.ltb_spec threshold x),
      (y <? - threshold), (y >? threshold); simpl; split; intros;
      first [ reflexivity | lia | discriminate ].
  - subst d. unfold_stick.
    destruct (x <? - threshold), (x >? threshold),
      (Z.ltb_spec y (- threshold)), (y >? threshold); simpl; split; intros;
      first [ reflexivity | lia | discriminate ].
  - subst d. unfold_stick. rewrite (Z.gtb_ltb y).
    destruct (x <? - threshold), (x >? threshold),
      (y <? - threshold), (Z.ltb_spec threshold y); simpl; split; intros;
      first [ reflexivity | lia | discriminate ].
  - intros n H8 H9 H10 H11. subst d.
    rewrite <- TestStickToDigital_within_mask, Z.land_spec.
    by rewrite testbit_dpad_mask, andb_false_r.
  - intros Hx. subst d. unfold_stick. rewrite (Z.gtb_ltb x).
    destruct (Z.ltb_spec x (- threshold)), (Z.ltb_spec threshold x);
      try lia.
    destruct (y <? - threshold), (y >? threshold); reflexivity.
  - intros Hy. subst d. unfold_stick. rewrite (Z.gtb_ltb y).
    destruct (Z.ltb_spec y (- threshold)), (Z.ltb_spec threshold y);
      try lia.
    destruct (x <? - threshold), (x >? threshold); reflexivity.
  - repeat split.
Qed.

(** ** The combo validator *)

(** C8. [TestValidateButtonCombo held required] is true exactly when
    [(held & required) == required]; a superset of the required buttons is
    accepted; with held = L|R|Start it accepts L|R, rejects A|B and accepts
    L|R|Start. *)
Theorem validate_combo_spec (held required : Z) :
  (TestValidateButtonCombo held required = true ↔
     Z.land held required = required) ∧
  (∀ extra, TestValidateButtonCombo (Z.lor required extra) required = true) ∧
  TestValidateButtonCombo
    (Z.lor (Z.lor SNES_L SNES_R) SNES_START) (Z.lor SNES_L SNES_R) = true ∧
  TestValidateButtonCombo
    (Z.lor (Z.lor SNES_L SNES_R) SNES_START) (Z.lor SNES_A SNES_B) = false ∧
  TestValidateButtonCombo
    (Z.lor (Z.lor SNES_L SNES_R) SNES_START)
    (Z.lor (Z.lor SNES_L SNES_R) SNES_START) = true.
Proof.
  unfold TestValidateButtonCombo. split; [apply Z.eqb_eq|].
  split; [|by repeat split].
  intros extra. apply Z.eqb_eq.
  apply Z.bits_inj'. intros n Hn.
  rewrite Z.land_spec, Z.lor_spec.
  destruct (Z.testbit required n), (Z.testbit extra n); reflexivity.
Qed.

(** ** The cross-family remap table *)

(** C9. Every source code of the table has one destination, which the
    function returns and which is not 0; every other source code maps
    to 0. *)
Theorem gc_to_snes_table_spec :
  NoDup (gc_to_snes_table.*1) ∧
  (∀ g d, (g, d) ∈ gc_to_snes_table → TestMapGCButtonToSNES g = d ∧ d ≠ 0) ∧
  (∀ g, g ∉ gc_to_snes_table.*1 → TestMapGCButtonToSNES g = 0).
Proof.
  split; [|split].
  - apply (bool_decide_unpack _). by vm_compute.
  - intros g d Hin. unfold gc_to_snes_table in Hin.
    repeat (apply elem_of_cons in Hin as [Hin|Hin];
            [injection Hin as -> ->; by split|]).
    by apply elem_of_nil in Hin.
  - intros g Hout. unfold TestMapGCButtonToSNES.
    repeat (match goal with
            | |- context [g =? ?k] =>
                destruct (Z.eqb_spec g k) as [->|_];
                [exfalso; apply Hout; simpl; repeat constructor|]
            end).
    reflexivity.
Qed.

(** ** The unit tests of tests/unit/test_input.cpp, replayed on the model *)

(** TEST(input_button_state_multiple): A and B pressed while Start is held. *)
Example input_button_state_multiple :
  TestProcessButtonInput (Some 0%nat) (Some 1%nat)
    [held (Z.lor (Z.lor SNES_A SNES_B) SNES_START); held SNES_START]
  = Some (true,
          [mkControllerState (Z.lor (Z.lor SNES_A SNES_B) SNES_START)
             (Z.lor SNES_A SNES_B) 0 0 0 false;
           held SNES_START]).
Proof. reflexivity. Qed.

(** TEST(input_button_sequence): three frames over [states[4]]. *)
Example input_button_sequence :
  let states := [zero_state; held SNES_A; held (Z.lor SNES_A SNES_B);
                 held SNES_B] in
  ∃ s1 s2 s3 f1 f2 f3,
    TestProcessButtonInput (Some 1%nat) (Some 0%nat) states = Some (true, s1) ∧
    TestProcessButtonInput (Some 2%nat) (Some 1%nat) s1 = Some (true, s2) ∧
    TestProcessButtonInput (Some 3%nat) (Some 2%nat) s2 = Some (true, s3) ∧
    s3 !! 1%nat = Some f1 ∧ s3 !! 2%nat = Some f2 ∧ s3 !! 3%nat = Some f3 ∧
    buttons_pressed f1 = SNES_A ∧
    buttons_pressed f2 = SNES_B ∧ buttons_released f2 = 0 ∧
    buttons_pressed f3 = 0 ∧ buttons_released f3 = SNES_A.
Proof. simpl. do 6 eexists. repeat split; reflexivity. Qed.

(** TEST(input_controller_state_null_protection) *)
Example input_controller_state_null_protection :
  TestProcessButtonInput nullptr (Some 0%nat) [zero_state]
    = Some (false, [zero_state]) ∧
  TestProcessButtonInput (Some 0%nat) nullptr [zero_state]
    = Some (false, [zero_state]) ∧
  TestProcessButtonInput nullptr nullptr [zero_state]
    = Some (false, [zero_state]).
Proof. repeat split. Qed.

(** TEST(input_gc_to_snes_mapping) *)
Example input_gc_to_snes_mapping :
  TestMapGCButtonToSNES 0x0001 = SNES_A ∧ TestMapGCButtonToSNES 0x0002 = SNES_B ∧
  TestMapGCButtonToSNES 0x0004 = SNES_X ∧ TestMapGCButtonToSNES 0x0008 = SNES_Y ∧
  TestMapGCButtonToSNES 0x1000 = SNES_UP ∧
  TestMapGCButtonToSNES 0x2000 = SNES_DOWN ∧
  TestMapGCButtonToSNES 0x4000 = SNES_LEFT ∧
  TestMapGCButtonToSNES 0x8000 = SNES_RIGHT ∧
  TestMapGCButtonToSNES 0x9999 = 0.
Proof. repeat split. Qed.

(** TEST(input_stick_deadzone) *)
Example input_stick_deadzone :
  TestStickDeadzone 10 15 20 = true ∧ TestStickDeadzone (-19) 19 20 = true ∧
  TestStickDeadzone 0 0 20 = true ∧ TestStickDeadzone 25 10 20 = false ∧
  TestStickDeadzone 10 (-25) 20 = false ∧
  TestStickDeadzone (-30) 30 20 = false.
Proof. repeat split. Qed.

(** TEST(input_stick_to_digital) *)
Example input_stick_to_digital :
  TestStickToDigital 0 0 50 = 0 ∧
  TestStickToDigital (-60) 0 50 = SNES_LEFT ∧
  TestStickToDigital 60 0 50 = SNES_RIGHT ∧
  TestStickToDigital 0 (-60) 50 = SNES_DOWN ∧
  TestStickToDigital 0 60 50 = SNES_UP ∧
  TestStickToDigital (-60) 60 50 = Z.lor SNES_LEFT SNES_UP ∧
  TestStickToDigital 30 (-30) 50 = 0.
Proof. repeat split. Qed.

(** ** The mapping registry: how a block acts on the rows *)

Lemma row_store c p i v (m : btnmap_t) c' p' :
  row c' p' (store c p i v m) =
  if decide (c' = Z.to_nat c ∧ p' = Z.to_nat p)
  then <[i := v]> <$> row c' p' m else row c' p' m.
Proof.
  unfold row, store. rewrite list_lookup_alter.
  destruct (decide (Z.to_nat c = c')) as [<-|Hc].
  - destruct (m !! Z.to_nat c) as [plane|]; simpl.
    + rewrite list_lookup_alter.
      destruct (decide (Z.to_nat p = p')) as [<-|Hp].
      * by rewrite decide_True.
      * rewrite decide_False; [done|]. intros [_ ->]. done.
    + by case_decide.
  - rewrite decide_False; [done|]. intros [-> _]. done.
Qed.

Lemma row_assign c p vals : ∀ i (m : btnmap_t) c' p',
  row c' p' (foldl (assign c p) (i, m) vals).2 =
  if decide (c' = Z.to_nat c ∧ p' = Z.to_nat p)
  then list_inserts i vals <$> row c' p' m else row c' p' m.
Proof.
  induction vals as [|v vals IH]; intros i m c' p'; simpl.
  - case_decide; [|done]. by destruct (row c' p' m).
  - unfold assign at 2. simpl. rewrite IH, row_store.
    case_decide; [|done].
    destruct (row c' p' m) as [r|]; [|done]. simpl.
    f_equal. symmetry. apply list_insert_inserts_lt. lia.
Qed.

Lemma row_fill c p vals (m : btnmap_t) c' p' :
  row c' p' (fill c p vals m) =
  if decide (c' = Z.to_nat c ∧ p' = Z.to_nat p)
  then list_inserts 0 vals <$> row c' p' m else row c' p' m.
Proof. apply row_assign. Qed.

Lemma row_rebuild_step cc wc (m : btnmap_t) b c' p' :
  row c' p' (rebuild_step cc wc m b) =
  (λ r, row_step cc wc c' p' r b) <$> row c' p' m.
Proof.
  unfold rebuild_step, when, row_step.
  destruct (selected cc wc b.1.1 b.1.2).
  - rewrite row_fill. case_decide; by destruct (row c' p' m).
  - by destruct (row c' p' m).
Qed.

Lemma row_rebuild cc wc tbl : ∀ (m : btnmap_t) c' p',
  row c' p' (foldl (rebuild_step cc wc) m tbl) =
  (λ r, foldl (row_step cc wc c' p') r tbl) <$> row c' p' m.
Proof.
  induction tbl as [|b tbl IH]; intros m c' p'; simpl.
  - by destruct (row c' p' m).
  - rewrite IH, row_rebuild_step. by destruct (row c' p' m).
Qed.

(** What a run of guarded blocks does to a row it never addresses. *)
Lemma row_steps_frame cc wc c' p' tbl (r : list Z) :
  Forall (λ b : Z * Z * list Z,
            selected cc wc b.1.1 b.1.2 = true →
            ¬ (c' = Z.to_nat b.1.1 ∧ p' = Z.to_nat b.1.2)) tbl →
  foldl (row_step cc wc c' p') r tbl = r.
Proof.
  induction 1 as [|b tbl Hb _ IH]; simpl; [done|].
  rewrite <- IH at 2. f_equal. unfold row_step.
  destruct (selected cc wc b.1.1 b.1.2); [|done].
  rewrite decide_False; [done|]. by apply Hb.
Qed.

(** The row addressed by exactly one block of the run takes that block's
    values. *)
Lemma row_steps_hit cc wc tbl (b : Z * Z * list Z) (r : list Z) :
  NoDup ((λ b : Z * Z * list Z, (Z.to_nat b.1.1, Z.to_nat b.1.2)) <$> tbl) →
  b ∈ tbl → selected cc wc b.1.1 b.1.2 = true →
  foldl (row_step cc wc (Z.to_nat b.1.1) (Z.to_nat b.1.2)) r tbl =
  list_inserts 0 b.2 r.
Proof.
  intros Hnd Hin Hsel.
  apply list_elem_of_split in Hin as (pre & post & ->).
  rewrite fmap_app, fmap_cons in Hnd.
  apply NoDup_app in Hnd as (_ & Hpre & Hpost).
  apply NoDup_cons in Hpost as (Hpost & _).
  assert (Hother : ∀ l : list (Z * Z * list Z),
             (Z.to_nat b.1.1, Z.to_nat b.1.2)
               ∉ (λ b : Z * Z * list Z, (Z.to_nat b.1.1, Z.to_nat b.1.2)) <$> l →
             Forall (λ b' : Z * Z * list Z,
                       selected cc wc b'.1.1 b'.1.2 = true →
                       ¬ (Z.to_nat b.1.1 = Z.to_nat b'.1.1 ∧
                          Z.to_nat b.1.2 = Z.to_nat b'.1.2)) l).
  { intros l Hl. apply Forall_forall. intros b' Hb' _ [E1 E2].
    apply Hl. apply list_elem_of_fmap. exists b'. split; [|done].
    by rewrite E1, E2. }
  rewrite foldl_app. simpl.
  rewrite row_steps_frame by (apply Hother; done).
  rewrite row_steps_frame.
  - unfold row_step. rewrite Hsel. by rewrite decide_True.
  - apply Hother. intros Hin. eapply Hpre; [exact Hin|]. left.
Qed.

(** Writing from slot 0 twice in a row is writing once, with the second
    sequence completed by what the first one reaches beyond it. *)
Lemma list_inserts_0_compose (w v r : list Z) :
  list_inserts 0 w (list_inserts 0 v r) =
  list_inserts 0 (w ++ drop (length w) v) r.
Proof.
  apply list_eq. intros j.
  destruct (decide (j < length r)%nat) as [Hj|Hj].
  - destruct (decide (j < length w)%nat) as [Hw|Hw].
    + rewrite !list_lookup_inserts
        by (rewrite ?length_inserts, ?length_app; lia).
      rewrite Nat.sub_0_r. by rewrite lookup_app_l.
    + rewrite list_lookup_inserts_ge by (simpl; lia).
      destruct (decide (j < length v)%nat) as [Hv|Hv].
      * rewrite !list_lookup_inserts
          by (rewrite ?length_app, ?length_drop; lia).
        rewrite Nat.sub_0_r, lookup_app_r, lookup_drop by lia.
        f_equal. lia.
      * rewrite !list_lookup_inserts_ge
          by (rewrite ?length_app, ?length_drop; simpl; lia).
        done.
  - rewrite !lookup_ge_None_2 by (rewrite ?length_inserts; lia). done.
Qed.

Lemma list_inserts_0_idemp (w r : list Z) :
  list_inserts 0 w (list_inserts 0 w r) = list_inserts 0 w r.
Proof.
  rewrite list_inserts_0_compose, drop_all. by rewrite app_nil_r.
Qed.

(** A run of guarded blocks acts on a row as a single write from slot 0. *)
Lemma row_steps_inserts cc wc c' p' tbl :
  ∃ w : list Z, ∀ r, foldl (row_step cc wc c' p') r tbl = list_inserts 0 w r.
Proof.
  induction tbl as [|b tbl (w & IH)]; simpl.
  - by exists [].
  - unfold row_step at 2.
    destruct (selected cc wc b.1.1 b.1.2); [|by exists w].
    case_decide; [|by exists w].
    exists (w ++ drop (length w) b.2). intros r.
    by rewrite IH, list_inserts_0_compose.
Qed.

(** A row of a well-formed matrix, written from slot 0. *)
Lemma list_inserts_0_prefix (vals r : list Z) :
  (length vals ≤ length r)%nat →
  list_inserts 0 vals r = vals ++ drop (length vals) r.
Proof.
  intros Hlen. rewrite <- (take_drop (length vals) r) at 1.
  apply list_inserts_0_r. by rewrite length_take_le.
Qed.

Lemma wf_btnmap_row (m : btnmap_t) c p :
  wf_btnmap m → (c < NUM_CTRL)%nat → (p < NUM_CTRLR)%nat →
  ∃ r, row c p m = Some r ∧ length r = NUM_SLOTS.
Proof.
  intros [Hlen Hplanes] Hc Hp. unfold row.
  destruct (lookup_lt_is_Some_2 m c) as [plane Hplane]; [lia|].
  rewrite Hplane. simpl.
  destruct (Forall_lookup_1 _ _ _ _ Hplanes Hplane) as [Hpl Hrows].
  destruct (lookup_lt_is_Some_2 plane p) as [r Hr]; [lia|].
  exists r. split; [done|].
  exact (Forall_lookup_1 _ _ _ _ Hrows Hr).
Qed.

(** Membership in a table that is written out. *)
Ltac in_table :=
  first [ apply list_elem_of_here | apply list_elem_of_further; in_table ].

Section Registry.
Context {K : Header}.

Lemma ResetControls_unfold cc wc (m : btnmap_t) :
  ResetControls cc wc m = foldl (rebuild_step cc wc) m canonical_rows.
Proof. reflexivity. Qed.

Lemma row_ResetControls cc wc (m : btnmap_t) c' p' :
  row c' p' (ResetControls cc wc m) =
  (λ r, foldl (row_step cc wc c' p') r canonical_rows) <$> row c' p' m.
Proof. rewrite ResetControls_unfold. apply row_rebuild. Qed.

Lemma canonical_keys_NoDup :
  ctrl_ok →
  NoDup ((λ b : Z * Z * list Z, (Z.to_nat b.1.1, Z.to_nat b.1.2))
           <$> canonical_rows).
Proof.
  intros ((? & ? & ? & ?) & (? & ? & ? & ? & ? & ?)).
  unfold canonical_rows. simpl.
  unfold CTRLR_GCPAD, CTRLR_WIIMOTE, CTRLR_NUNCHUK, CTRLR_CLASSIC,
    CTRLR_WUPC, CTRLR_WIIDRC.
  repeat (apply NoDup_cons_2;
          [ intros Hin;
            repeat (apply elem_of_cons in Hin as [Heq|Hin];
                    [injection Heq; intros; lia|]);
            by apply elem_of_nil in Hin |]).
  apply NoDup_nil_2.
Qed.

Lemma supported_canonical c p :
  supported c p → ∃ vals, (c, p, vals) ∈ canonical_rows.
Proof.
  unfold supported, canonical_rows.
  intros [[-> Hp]|[Hc Hp]].
  - repeat (apply elem_of_cons in Hp as [->|Hp];
            [eexists; in_table|]).
    by apply elem_of_nil in Hp.
  - repeat (apply elem_of_cons in Hc as [->|Hc];
            [repeat (apply elem_of_cons in Hp as [->|Hp];
                     [eexists; in_table|]);
             by apply elem_of_nil in Hp|]).
    by apply elem_of_nil in Hc.
Qed.

Lemma supported_range c p :
  ctrl_ok → supported c p →
  (Z.to_nat c < NUM_CTRL)%nat ∧ (Z.to_nat p < NUM_CTRLR)%nat.
Proof.
  intros ((? & ? & ? & ?) & _) Hs. unfold NUM_CTRL, NUM_CTRLR.
  assert (0 <= c < 4 ∧ 0 <= p < 6); [|lia].
  destruct Hs as [[-> Hp]|[Hc Hp]].
  - split; [done|].
    repeat (apply elem_of_cons in Hp as [->|Hp]; [done|]).
    by apply elem_of_nil in Hp.
  - split.
    + repeat (apply elem_of_cons in Hc as [->|Hc]; [done|]).
      by apply elem_of_nil in Hc.
    + repeat (apply elem_of_cons in Hp as [->|Hp]; [done|]).
      by apply elem_of_nil in Hp.
Qed.

Lemma slotCount_values :
  ctrl_ok →
  slotCount CTRL_PAD = 12%nat ∧ slotCount CTRL_SCOPE = 6%nat ∧
  slotCount CTRL_MOUSE = 2%nat ∧ slotCount CTRL_JUST = 3%nat.
Proof.
  intros (_ & (? & ? & ? & ? & ? & ?)). unfold slotCount.
  repeat split;
    repeat (match goal with
            | |- context [?a =? ?b] => destruct (Z.eqb_spec a b); try lia
            end); reflexivity.
Qed.

Lemma canonical_length c p vals :
  ctrl_ok → (c, p, vals) ∈ canonical_rows → length vals = slotCount c.
Proof.
  intros Hok Hin.
  destruct (slotCount_values Hok) as (Hpad & Hscope & Hmouse & Hjust).
  unfold canonical_rows in Hin.
  repeat (apply elem_of_cons in Hin as [[= -> -> ->]|Hin];
          [by rewrite ?Hpad, ?Hscope, ?Hmouse, ?Hjust|]).
  by apply elem_of_nil in Hin.
Qed.

Lemma button_code_nonzero v : codes_ok → v ∈ button_codes → v ≠ 0.
Proof.
  intros Hok Hv. unfold codes_ok in Hok.
  rewrite Forall_forall in Hok. specialize (Hok v Hv). lia.
Qed.

Lemma canonical_length_le c p vals :
  (c, p, vals) ∈ canonical_rows → (length vals ≤ NUM_SLOTS)%nat.
Proof.
  intros Hin. unfold canonical_rows in Hin. unfold NUM_SLOTS.
  repeat (apply elem_of_cons in Hin as [[= -> -> ->]|Hin]; [simpl; lia|]).
  by apply elem_of_nil in Hin.
Qed.

Ltac nonzero_code Hcodes :=
  apply (button_code_nonzero _ Hcodes); unfold button_codes; in_table.

Lemma canonical_zero_slots c p vals :
  ctrl_ok → codes_ok → (c, p, vals) ∈ canonical_rows → zero_slots c p vals.
Proof.
  intros (_ & (? & ? & ? & ? & ? & ?)) Hcodes Hin.
  unfold canonical_rows in Hin. unfold zero_slots.
  repeat (apply elem_of_cons in Hin as [Heq|Hin];
          [ injection Heq as -> -> ->;
            first
              [ rewrite decide_False
                  by (unfold CTRLR_GCPAD, CTRLR_WIIMOTE, CTRLR_NUNCHUK,
                        CTRLR_CLASSIC, CTRLR_WUPC, CTRLR_WIIDRC;
                      intros [? ?]; first [ congruence | lia ]);
                repeat (apply Forall_cons; split; [nonzero_code Hcodes|]);
                apply Forall_nil_2
              | rewrite decide_True by done;
                intros i v Hv;
                do 12 (destruct i as [|i];
                       [ injection Hv as <-;
                         first
                           [ lia
                           | match goal with
                             | |- ?x = 0 ↔ _ =>
                                 assert (x ≠ 0) by nonzero_code Hcodes; lia
                             end ] |]);
                simpl in Hv; by rewrite lookup_nil in Hv ] |]).
  by apply elem_of_nil in Hin.
Qed.

Lemma row_ResetControls_inserts cc wc c' p' :
  ∃ w : list Z, ∀ m : btnmap_t,
    row c' p' (ResetControls cc wc m) = list_inserts 0 w <$> row c' p' m.
Proof.
  destruct (row_steps_inserts cc wc c' p' canonical_rows) as [w Hw].
  exists w. intros m. rewrite row_ResetControls.
  apply option_fmap_ext. intros r. apply Hw.
Qed.

Lemma row_ResetControls_hit cc wc (m : btnmap_t) (b : Z * Z * list Z) :
  ctrl_ok → b ∈ canonical_rows → selected cc wc b.1.1 b.1.2 = true →
  row (Z.to_nat b.1.1) (Z.to_nat b.1.2) (ResetControls cc wc m) =
  list_inserts 0 b.2 <$> row (Z.to_nat b.1.1) (Z.to_nat b.1.2) m.
Proof.
  intros Hok Hin Hsel. rewrite row_ResetControls.
  apply option_fmap_ext. intros r.
  apply row_steps_hit; [by apply canonical_keys_NoDup|done|done].
Qed.

Lemma row_ResetControls_frame cc wc (m : btnmap_t) c' p' :
  (∀ b : Z * Z * list Z,
     b ∈ canonical_rows → selected cc wc b.1.1 b.1.2 = true →
     ¬ (c' = Z.to_nat b.1.1 ∧ p' = Z.to_nat b.1.2)) →
  row c' p' (ResetControls cc wc m) = row c' p' m.
Proof.
  intros Hframe. rewrite row_ResetControls.
  rewrite <- (option_fmap_id (row c' p' m)) at 2.
  apply option_fmap_ext. intros r.
  apply row_steps_frame. by apply Forall_forall.
Qed.

(** C5. Rebuilding with the same arguments twice in succession leaves every
    row, the rebuilt one included, as the first call left it. *)
Theorem rebuild_idempotent cc wc (m : btnmap_t) c' p' :
  row c' p' (ResetControls cc wc (ResetControls cc wc m)) =
  row c' p' (ResetControls cc wc m).
Proof.
  destruct (row_ResetControls_inserts cc wc c' p') as [w Hw].
  rewrite !Hw. destruct (row c' p' m) as [r|]; [|done].
  simpl. by rewrite list_inserts_0_idemp.
Qed.

(** The blocks selected by a call for one specific pair address that pair's
    row only. *)
Lemma selected_specific cc wc c p :
  cc ≠ -1 → selected cc wc c p = true → c = cc ∧ p = wc.
Proof.
  unfold selected. intros Hcc Hsel.
  apply orb_true_iff in Hsel as [Hsel|Hsel].
  - apply Z.eqb_eq in Hsel. done.
  - apply andb_true_iff in Hsel as [H1 H2].
    apply Z.eqb_eq in H1, H2. done.
Qed.

(** C2. Rebuilding (Pad, Wiimote) leaves every other row of the matrix
    equal to what it was; the (Pad, Wiimote) row itself takes the sequence
    of its block. *)
Theorem rebuild_pad_wiimote_isolated (m : btnmap_t) :
  CTRL_PAD ≠ -1 →
  (∀ c' p', (c', p') ≠ (Z.to_nat CTRL_PAD, Z.to_nat CTRLR_WIIMOTE) →
     row c' p' (ResetControls CTRL_PAD CTRLR_WIIMOTE m) = row c' p' m) ∧
  (ctrl_ok →
     row (Z.to_nat CTRL_PAD) (Z.to_nat CTRLR_WIIMOTE)
       (ResetControls CTRL_PAD CTRLR_WIIMOTE m) =
     list_inserts 0
       [WPAD_BUTTON_B; WPAD_BUTTON_2; WPAD_BUTTON_1; WPAD_BUTTON_A; 0; 0;
        WPAD_BUTTON_PLUS; WPAD_BUTTON_MINUS; WPAD_BUTTON_RIGHT;
        WPAD_BUTTON_LEFT; WPAD_BUTTON_UP; WPAD_BUTTON_DOWN]
     <$> row (Z.to_nat CTRL_PAD) (Z.to_nat CTRLR_WIIMOTE) m).
Proof.
  intros Hpad. split.
  - intros c' p' Hne. apply row_ResetControls_frame.
    intros b _ Hsel [-> ->].
    apply selected_specific in Hsel as [H1 H2]; [|done].
    apply Hne. by rewrite H1, H2.
  - intros Hok.
    apply (row_ResetControls_hit CTRL_PAD CTRLR_WIIMOTE m
             (CTRL_PAD, CTRLR_WIIMOTE, _) Hok).
    + unfold canonical_rows. in_table.
    + unfold selected. simpl. by rewrite !Z.eqb_refl, orb_true_r.
Qed.

(** A run of blocks none of which is selected returns the matrix. *)
Lemma rebuild_steps_unselected cc wc tbl (m : btnmap_t) :
  Forall (λ b : Z * Z * list Z, selected cc wc b.1.1 b.1.2 = false) tbl →
  foldl (rebuild_step cc wc) m tbl = m.
Proof.
  induction 1 as [|b tbl Hb _ IH]; simpl; [done|].
  unfold rebuild_step at 2. unfold when. by rewrite Hb.
Qed.

(** Every block addresses one of the six controller families. *)
Lemma canonical_family (b : Z * Z * list Z) :
  b ∈ canonical_rows → TestIsValidController b.1.2 = true ∧ 0 <= b.1.2 <= 5.
Proof.
  intros Hin. unfold canonical_rows in Hin.
  repeat (apply elem_of_cons in Hin as [->|Hin]; [by simpl|]).
  by apply elem_of_nil in Hin.
Qed.

(** Every block addresses a supported pair. *)
Lemma canonical_supported (b : Z * Z * list Z) :
  b ∈ canonical_rows → supported b.1.1 b.1.2.
Proof.
  intros Hin. unfold canonical_rows in Hin. unfold supported.
  repeat (apply elem_of_cons in Hin as [->|Hin];
          [ simpl;
            first [ left; split; [reflexivity | in_table]
                  | right; split; in_table ] |]).
  by apply elem_of_nil in Hin.
Qed.

(** C1, as the code has it. A call [ResetControls consoleCtrl (-1)] with a
    console scheme other than the ALL sentinel selects no block: no
    controller family is numbered -1, so the matrix is returned as it
    was. More generally a call with a console scheme other than the ALL
    sentinel changes no row but that of its own pair, whatever the second
    argument is: it never rebuilds more than one row. *)
Theorem rebuild_console_all_is_noop cc (m : btnmap_t) :
  cc ≠ -1 →
  ResetControls cc (-1) m = m ∧
  (∀ wc c' p', (c', p') ≠ (Z.to_nat cc, Z.to_nat wc) →
     row c' p' (ResetControls cc wc m) = row c' p' m).
Proof.
  intros Hcc. split.
  - rewrite ResetControls_unfold.
    apply rebuild_steps_unselected. apply Forall_forall. intros b Hb.
    apply canonical_family in Hb. unfold selected.
    rewrite (proj2 (Z.eqb_neq cc (-1)) Hcc).
    rewrite (proj2 (Z.eqb_neq (-1) b.1.2)) by lia.
    by rewrite andb_false_r.
  - intros wc c' p' Hne. apply row_ResetControls_frame.
    intros b _ Hsel [-> ->].
    apply selected_specific in Hsel as [H1 H2]; [|done].
    apply Hne. by rewrite H1, H2.
Qed.

(** The Nunchuk has a block with the Pad scheme only. *)
Lemma nunchuk_unsupported c :
  ctrl_ok → c ∈ [CTRL_SCOPE; CTRL_MOUSE; CTRL_JUST] →
  ∀ c0 p0, supported c0 p0 →
    (Z.to_nat c, Z.to_nat CTRLR_NUNCHUK) ≠ (Z.to_nat c0, Z.to_nat p0).
Proof.
  intros ((? & ? & ? & ?) & (? & ? & ? & ? & ? & ?)) Hc c0 p0 Hs [= E1 E2].
  assert (0 <= c < 4 ∧ c ≠ CTRL_PAD) as [Hrange Hpad].
  { repeat (apply elem_of_cons in Hc as [->|Hc]; [done|]).
    by apply elem_of_nil in Hc. }
  destruct Hs as [[-> _]|[_ Hp]]; [lia|].
  unfold CTRLR_NUNCHUK in E2.
  repeat (apply elem_of_cons in Hp as [->|Hp]; [discriminate E2|]).
  by apply elem_of_nil in Hp.
Qed.

(** C4, as the code has it. After a full rebuild the row of every pair that
    has a block holds that pair's canonical sequence in its first
    [slotCount] slots (12, 6, 2 and 3 for Pad, Superscope, Mouse and
    Justifier) and its former content in the others; in the (Pad, Wiimote)
    sequence exactly slots 4 and 5 are 0, and no entry of any other
    sequence is 0. A row at a position that is that of no pair with a block
    is left as it was; the Nunchuk rows of the Superscope, Mouse and
    Justifier schemes are such rows. *)
Theorem full_rebuild_rows wc (m : btnmap_t) :
  ctrl_ok → codes_ok → wf_btnmap m →
  (slotCount CTRL_PAD = 12%nat ∧ slotCount CTRL_SCOPE = 6%nat ∧
   slotCount CTRL_MOUSE = 2%nat ∧ slotCount CTRL_JUST = 3%nat) ∧
  (∀ c p, supported c p →
     ∃ vals r,
       (c, p, vals) ∈ canonical_rows ∧
       length vals = slotCount c ∧
       row (Z.to_nat c) (Z.to_nat p) m = Some r ∧
       row (Z.to_nat c) (Z.to_nat p) (ResetControls (-1) wc m) =
         Some (vals ++ drop (slotCount c) r) ∧
       zero_slots c p vals) ∧
  (∀ c' p',
     (∀ c p, supported c p → (c', p') ≠ (Z.to_nat c, Z.to_nat p)) →
     row c' p' (ResetControls (-1) wc m) = row c' p' m) ∧
  (∀ c, c ∈ [CTRL_SCOPE; CTRL_MOUSE; CTRL_JUST] →
     ¬ supported c CTRLR_NUNCHUK ∧
     row (Z.to_nat c) (Z.to_nat CTRLR_NUNCHUK) (ResetControls (-1) wc m) =
     row (Z.to_nat c) (Z.to_nat CTRLR_NUNCHUK) m).
Proof.
  intros Hok Hcodes Hwf.
  assert (Hframe : ∀ c' p',
            (∀ c p, supported c p → (c', p') ≠ (Z.to_nat c, Z.to_nat p)) →
            row c' p' (ResetControls (-1) wc m) = row c' p' m).
  { intros c' p' Hnone. apply row_ResetControls_frame.
    intros b Hb _ [-> ->].
    by apply (Hnone b.1.1 b.1.2 (canonical_supported b Hb)). }
  split; [by apply slotCount_values|]. split; [|split; [exact Hframe|]].
  - intros c p Hs.
    destruct (supported_canonical c p Hs) as [vals Hin].
    destruct (supported_range c p Hok Hs) as [Hc Hp].
    destruct (wf_btnmap_row m _ _ Hwf Hc Hp) as (r & Hr & Hlen).
    pose proof (canonical_length c p vals Hok Hin) as Hvals.
    pose proof (canonical_length_le c p vals Hin) as Hle.
    exists vals, r. split; [done|]. split; [done|]. split; [done|].
    split; [|by apply canonical_zero_slots].
    pose proof (row_ResetControls_hit (-1) wc m (c, p, vals) Hok Hin eq_refl)
      as Hhit.
    cbn [fst snd] in Hhit. rewrite Hhit, Hr. cbn [fmap option_fmap option_map].
    rewrite list_inserts_0_prefix by lia. by rewrite Hvals.
  - intros c Hc. pose proof (nunchuk_unsupported c Hok Hc) as Hnone. split.
    + intros Hs. by apply (Hnone c CTRLR_NUNCHUK Hs).
    + by apply Hframe.
Qed.

End Registry.

(** ** The registry on a concrete header *)

Section Sample.
Local Existing Instance sample_header.

Lemma sample_ctrl_ok : ctrl_ok.
Proof. unfold ctrl_ok. simpl. lia. Qed.

Lemma sample_codes_ok : codes_ok.
Proof. apply (bool_decide_unpack _). by vm_compute. Qed.

Lemma btnmap0_wf : wf_btnmap btnmap0.
Proof. apply (bool_decide_unpack _). by vm_compute. Qed.

(** C1, as stated, fails: [ResetControls CTRL_PAD (-1)] rebuilds no row of
    the Pad scheme. On a matrix filled with 7 the (Pad, GCPad) row still
    holds 7 in its twelve slots after the call, where a rebuild of that row
    leaves the GameCube sequence. *)
Lemma rebuild_console_all_counterexample :
  slots (slotCount CTRL_PAD) CTRL_PAD CTRLR_GCPAD
    (ResetControls CTRL_PAD (-1) btnmap7) = Some (replicate 12 7) ∧
  slots (slotCount CTRL_PAD) CTRL_PAD CTRLR_GCPAD
    (ResetControls CTRL_PAD CTRLR_GCPAD btnmap7) =
    Some [PAD_BUTTON_A; PAD_BUTTON_B; PAD_BUTTON_X; PAD_BUTTON_Y;
          PAD_TRIGGER_L; PAD_TRIGGER_R; PAD_BUTTON_START; PAD_TRIGGER_Z;
          PAD_BUTTON_UP; PAD_BUTTON_DOWN; PAD_BUTTON_LEFT; PAD_BUTTON_RIGHT] ∧
  slots (slotCount CTRL_PAD) CTRL_PAD CTRLR_GCPAD
    (ResetControls CTRL_PAD (-1) btnmap7) ≠
    Some [PAD_BUTTON_A; PAD_BUTTON_B; PAD_BUTTON_X; PAD_BUTTON_Y;
          PAD_TRIGGER_L; PAD_TRIGGER_R; PAD_BUTTON_START; PAD_TRIGGER_Z;
          PAD_BUTTON_UP; PAD_BUTTON_DOWN; PAD_BUTTON_LEFT; PAD_BUTTON_RIGHT].
Proof. by vm_compute. Qed.

Lemma rebuild_console_all_is_noop_witness :
  CTRL_PAD ≠ -1 ∧ ResetControls CTRL_PAD (-1) btnmap7 = btnmap7.
Proof.
  assert (H : CTRL_PAD ≠ -1) by (simpl; lia).
  split; [exact H|].
  exact (proj1 (rebuild_console_all_is_noop CTRL_PAD btnmap7 H)).
Defined.

Lemma rebuild_pad_wiimote_isolated_witness :
  CTRL_PAD ≠ -1 ∧
  row (Z.to_nat CTRL_SCOPE) (Z.to_nat CTRLR_WIIMOTE)
    (ResetControls CTRL_PAD CTRLR_WIIMOTE btnmap7) =
  row (Z.to_nat CTRL_SCOPE) (Z.to_nat CTRLR_WIIMOTE) btnmap7.
Proof.
  assert (H : CTRL_PAD ≠ -1) by (simpl; lia).
  split; [exact H|].
  apply (proj1 (rebuild_pad_wiimote_isolated btnmap7 H)).
  simpl. discriminate.
Defined.

(** C4, as stated, fails: a full rebuild does not populate the Nunchuk rows
    of the Superscope, Mouse and Justifier schemes, which have no block. The
    Nunchuk is a valid controller family, yet after a full rebuild the
    (Superscope, Nunchuk) row of the zero-initialised matrix holds no
    bit-code in any of its slots, and that of a matrix filled with 7 still
    holds 7 everywhere. *)
Lemma full_rebuild_counterexample :
  TestIsValidController CTRLR_NUNCHUK = true ∧
  slots (slotCount CTRL_SCOPE) CTRL_SCOPE CTRLR_NUNCHUK
    (ResetControls (-1) (-1) btnmap0) = Some (replicate 6 0) ∧
  slots (slotCount CTRL_SCOPE) CTRL_SCOPE CTRLR_NUNCHUK
    (ResetControls (-1) (-1) btnmap7) = Some (replicate 6 7) ∧
  row (Z.to_nat CTRL_MOUSE) (Z.to_nat CTRLR_NUNCHUK)
    (ResetControls (-1) (-1) btnmap7) = Some (replicate 12 7) ∧
  row (Z.to_nat CTRL_JUST) (Z.to_nat CTRLR_NUNCHUK)
    (ResetControls (-1) (-1) btnmap7) = Some (replicate 12 7).
Proof. by vm_compute. Qed.

Lemma full_rebuild_rows_witness :
  ctrl_ok ∧ codes_ok ∧ wf_btnmap btnmap0 ∧ supported CTRL_PAD CTRLR_WIIMOTE ∧
  (∃ vals r,
     (CTRL_PAD, CTRLR_WIIMOTE, vals) ∈ canonical_rows ∧
     length vals = slotCount CTRL_PAD ∧
     row (Z.to_nat CTRL_PAD) (Z.to_nat CTRLR_WIIMOTE) btnmap0 = Some r ∧
     row (Z.to_nat CTRL_PAD) (Z.to_nat CTRLR_WIIMOTE)
       (ResetControls (-1) (-1) btnmap0) =
       Some (vals ++ drop (slotCount CTRL_PAD) r) ∧
     zero_slots CTRL_PAD CTRLR_WIIMOTE vals) ∧
  row (Z.to_nat CTRL_MOUSE) (Z.to_nat CTRLR_NUNCHUK)
    (ResetControls (-1) (-1) btnmap0) =
  row (Z.to_nat CTRL_MOUSE) (Z.to_nat CTRLR_NUNCHUK) btnmap0.
Proof.
  assert (Hs : supported CTRL_PAD CTRLR_WIIMOTE).
  { left. split; [reflexivity|]. in_table. }
  assert (Hm : CTRL_MOUSE ∈ [CTRL_SCOPE; CTRL_MOUSE; CTRL_JUST]) by in_table.
  destruct (full_rebuild_rows (-1) btnmap0
              sample_ctrl_ok sample_codes_ok btnmap0_wf)
    as (_ & Hrows & _ & Hnunchuk).
  split; [exact sample_ctrl_ok|]. split; [exact sample_codes_ok|].
  split; [exact btnmap0_wf|]. split; [exact Hs|].
  split; [exact (Hrows CTRL_PAD CTRLR_WIIMOTE Hs)|].
  exact (proj2 (Hnunchuk CTRL_MOUSE Hm)).
Defined.

End Sample.

(** * Further properties of the registry *)

Section RegistryMore.
Context {K : Header}.

(** Two blocks of the table that address the same row are the same block. *)
Lemma canonical_key_inj (b b' : Z * Z * list Z) :
  ctrl_ok → b ∈ canonical_rows → b' ∈ canonical_rows →
  Z.to_nat b.1.1 = Z.to_nat b'.1.1 → Z.to_nat b.1.2 = Z.to_nat b'.1.2 →
  b = b'.
Proof.
  intros Hok Hb Hb' E1 E2.
  pose proof (canonical_keys_NoDup Hok) as Hnd.
  apply list_elem_of_lookup in Hb as [i Hi].
  apply list_elem_of_lookup in Hb' as [j Hj].
  assert (i = j); [|congruence].
  eapply NoDup_lookup; [exact Hnd| |].
  - rewrite list_lookup_fmap, Hi. reflexivity.
  - rewrite list_lookup_fmap, Hj. simpl. by rewrite E1, E2.
Qed.

(** How any call acts on one row: as the identity, or as the write of a
    sequence that depends on the row only. *)
Lemma row_ResetControls_action c' p' :
  ctrl_ok →
  ∃ (w : list Z) (c p : Z), ∀ cc wc (m : btnmap_t),
    row c' p' (ResetControls cc wc m) =
    (λ r, if selected cc wc c p then list_inserts 0 w r else r)
      <$> row c' p' m.
Proof.
  intros Hok.
  destruct (decide (Exists (λ b : Z * Z * list Z,
                              c' = Z.to_nat b.1.1 ∧ p' = Z.to_nat b.1.2)
                           canonical_rows)) as [Hex|Hnone].
  - apply Exists_exists in Hex as (b & Hb & -> & ->).
    exists b.2, b.1.1, b.1.2. intros cc wc m.
    destruct (selected cc wc b.1.1 b.1.2) eqn:Hsel.
    + by apply row_ResetControls_hit.
    + rewrite option_fmap_id. apply row_ResetControls_frame.
      intros b' Hb' Hsel' [E1 E2].
      assert (b = b') by (by apply canonical_key_inj). subst b'.
      congruence.
  - exists [], 0, 0. intros cc wc m.
    rewrite (option_fmap_ext _ id) by (intros r; by destruct (selected _ _ _ _)).
    rewrite option_fmap_id. apply row_ResetControls_frame.
    intros b Hb _ Hkey. apply Hnone. apply Exists_exists. by exists b.
Qed.


(** The row of a block, in its first slots, after a call that selects it. *)
Lemma slots_ResetControls_hit cc wc (m : btnmap_t) c p vals :
  ctrl_ok → wf_btnmap m → (c, p, vals) ∈ canonical_rows →
  selected cc wc c p = true →
  ∃ r, row (Z.to_nat c) (Z.to_nat p) m = Some r ∧
       row (Z.to_nat c) (Z.to_nat p) (ResetControls cc wc m)
       = Some (vals ++ drop (slotCount c) r).
Proof.
  intros Hok Hwf Hin Hsel.
  pose proof (canonical_supported _ Hin) as Hs. simpl in Hs.
  destruct (supported_range c p Hok Hs) as [Hc Hp].
  destruct (wf_btnmap_row m _ _ Hwf Hc Hp) as (r & Hr & Hlen).
  pose proof (canonical_length c p vals Hok Hin) as Hvals.
  pose proof (canonical_length_le c p vals Hin) as Hle.
  exists r. split; [done|].
  pose proof (row_ResetControls_hit cc wc m (c, p, vals) Hok Hin Hsel) as Hhit.
  cbn [fst snd] in Hhit. rewrite Hhit, Hr. cbn [fmap option_fmap option_map].
  rewrite list_inserts_0_prefix by lia. by rewrite Hvals.
Qed.

Lemma supported_not_all c p : ctrl_ok → supported c p → c ≠ -1.
Proof.
  intros ((? & ? & ? & ?) & _) [[-> _]|[Hc _]]; [lia|].
  repeat (apply elem_of_cons in Hc as [->|Hc]; [lia|]).
  by apply elem_of_nil in Hc.
Qed.

(** X2. Rebuilding one supported pair, whichever it is, writes that pair's
    canonical sequence into the first [slotCount] slots of its row and
    leaves every other row of the matrix as it was. *)
Theorem rebuild_single_pair cc wc (m : btnmap_t) :
  ctrl_ok → wf_btnmap m → supported cc wc →
  ∃ vals r,
    (cc, wc, vals) ∈ canonical_rows ∧
    length vals = slotCount cc ∧
    row (Z.to_nat cc) (Z.to_nat wc) m = Some r ∧
    row (Z.to_nat cc) (Z.to_nat wc) (ResetControls cc wc m)
      = Some (vals ++ drop (slotCount cc) r) ∧
    ∀ c' p', (c', p') ≠ (Z.to_nat cc, Z.to_nat wc) →
      row c' p' (ResetControls cc wc m) = row c' p' m.
Proof.
  intros Hok Hwf Hs.
  destruct (supported_canonical cc wc Hs) as [vals Hin].
  assert (Hsel : selected cc wc cc wc = true).
  { unfold selected. by rewrite !Z.eqb_refl, orb_true_r. }
  destruct (slots_ResetControls_hit cc wc m cc wc vals Hok Hwf Hin Hsel)
    as (r & Hr & Hafter).
  exists vals, r. split; [done|].
  split; [by apply (canonical_length cc wc)|].
  split; [done|]. split; [done|].
  intros c' p' Hne. apply row_ResetControls_frame.
  intros b _ Hb [-> ->].
  apply selected_specific in Hb as [H1 H2];
    [|by apply (supported_not_all cc wc)].
  apply Hne. by rewrite H1, H2.
Qed.

(** X3. A call for a specific pair that has no block (the Nunchuk with the
    Superscope, Mouse or Justifier scheme, or any number that names no
    scheme or no family) returns the matrix unchanged. *)
Theorem rebuild_unsupported_pair_is_noop cc wc (m : btnmap_t) :
  cc ≠ -1 → ¬ supported cc wc → ResetControls cc wc m = m.
Proof.
  intros Hcc Hns. rewrite ResetControls_unfold.
  apply rebuild_steps_unselected. apply Forall_forall. intros b Hb.
  destruct (selected cc wc b.1.1 b.1.2) eqn:Hsel; [|done].
  apply selected_specific in Hsel as [H1 H2]; [|done].
  exfalso. apply Hns. rewrite <- H1, <- H2. by apply canonical_supported.
Qed.

(** X4. A full rebuild makes any other rebuild redundant: run before or
    after a call with arbitrary arguments, it leaves every row as the full
    rebuild alone does. *)
Theorem full_rebuild_absorbs cc wc w (m : btnmap_t) c' p' :
  ctrl_ok →
  row c' p' (ResetControls (-1) w (ResetControls cc wc m))
    = row c' p' (ResetControls (-1) w m) ∧
  row c' p' (ResetControls cc wc (ResetControls (-1) w m))
    = row c' p' (ResetControls (-1) w m).
Proof.
  intros Hok.
  destruct (row_ResetControls_action c' p' Hok) as (vals & c & p & Hact).
  rewrite !Hact. destruct (row c' p' m) as [r|]; [|done].
  cbn [fmap option_fmap option_map].
  assert (Hfull : selected (-1) w c p = true) by reflexivity.
  rewrite Hfull.
  destruct (selected cc wc c p); by rewrite ?list_inserts_0_idemp.
Qed.

(** X5. Rebuilds commute: two calls in either order leave every row with
    the same content. *)
Theorem rebuilds_commute cc1 wc1 cc2 wc2 (m : btnmap_t) c' p' :
  ctrl_ok →
  row c' p' (ResetControls cc1 wc1 (ResetControls cc2 wc2 m))
    = row c' p' (ResetControls cc2 wc2 (ResetControls cc1 wc1 m)).
Proof.
  intros Hok.
  destruct (row_ResetControls_action c' p' Hok) as (vals & c & p & Hact).
  rewrite !Hact. destruct (row c' p' m) as [r|]; [|done].
  cbn [fmap option_fmap option_map].
  by destruct (selected cc1 wc1 c p), (selected cc2 wc2 c p).
Qed.

(** X6. The Wii U Pro Controller is mapped exactly as the Classic
    Controller: after a full rebuild the rows of the two families hold the
    same codes in the slots of every scheme. *)
Theorem classic_and_wupc_rows_agree w (m : btnmap_t) c :
  ctrl_ok → wf_btnmap m →
  c ∈ [CTRL_PAD; CTRL_SCOPE; CTRL_MOUSE; CTRL_JUST] →
  ∃ vals,
    length vals = slotCount c ∧
    slots (slotCount c) c CTRLR_CLASSIC (ResetControls (-1) w m) = Some vals ∧
    slots (slotCount c) c CTRLR_WUPC (ResetControls (-1) w m) = Some vals.
Proof.
  intros Hok Hwf Hc.
  assert (Hboth : ∃ vals, (c, CTRLR_CLASSIC, vals) ∈ canonical_rows ∧
                          (c, CTRLR_WUPC, vals) ∈ canonical_rows).
  { unfold canonical_rows.
    repeat (apply elem_of_cons in Hc as [->|Hc];
            [eexists; split; in_table|]).
    by apply elem_of_nil in Hc. }
  destruct Hboth as (vals & Hcl & Hwu).
  pose proof (canonical_length _ _ _ Hok Hcl) as Hlen.
  exists vals. split; [done|].
  destruct (slots_ResetControls_hit (-1) w m _ _ _ Hok Hwf Hcl eq_refl)
    as (r1 & _ & H1).
  destruct (slots_ResetControls_hit (-1) w m _ _ _ Hok Hwf Hwu eq_refl)
    as (r2 & _ & H2).
  unfold slots. rewrite H1, H2. cbn [fmap option_fmap option_map].
  rewrite <- Hlen. by rewrite !take_app_length.
Qed.

End RegistryMore.


(** * Further properties of the input helpers *)

(** Bit [n] of both sides of an equation between masks. *)
Ltac bit_specs :=
  repeat first
    [ rewrite Z.land_spec | rewrite Z.lor_spec | rewrite Z.lxor_spec
    | rewrite Z.lnot_spec by lia | rewrite testbit_not32 by lia
    | rewrite Z.bits_0 ].

Ltac bit_specs_in H :=
  repeat first
    [ rewrite Z.land_spec in H | rewrite Z.lor_spec in H
    | rewrite Z.lxor_spec in H | rewrite Z.lnot_spec in H by lia
    | rewrite testbit_not32 in H by lia | rewrite Z.bits_0 in H ].

Ltac bit_of H n :=
  let Hb := fresh "Hb" in
  pose proof (f_equal (λ z, Z.testbit z n) H) as Hb; cbv beta in Hb;
  bit_specs_in Hb.

Ltac bitwise n Hn := apply Z.bits_inj'; intros n Hn; bit_specs.

(** X7. A second call with the same arguments changes nothing, and a call
    writes nothing but the press and release masks of the current state:
    its held mask, stick and connection flag, and every other state of the
    store, the previous one included, are as before. *)
Theorem process_input_frame_and_idempotent (h : heap) c p cur prev :
  h !! c = Some cur → h !! p = Some prev →
  ∃ h' cur',
    TestProcessButtonInput (Some c) (Some p) h = Some (true, h') ∧
    TestProcessButtonInput (Some c) (Some p) h' = Some (true, h') ∧
    length h' = length h ∧
    (∀ k, k ≠ c → h' !! k = h !! k) ∧
    h' !! c = Some cur' ∧
    buttons_held cur' = buttons_held cur ∧
    stick_x cur' = stick_x cur ∧ stick_y cur' = stick_y cur ∧
    connected cur' = connected cur.
Proof.
  intros Hc Hp.
  assert (Hlt : (c < length h)%nat) by (by eapply lookup_lt_Some).
  eexists _, _. split; [by apply TestProcessButtonInput_valid|].
  split.
  - destruct (decide (c = p)) as [->|Hne].
    + assert (prev = cur) by congruence. subst prev.
      erewrite TestProcessButtonInput_valid;
        [|by apply list_lookup_insert_eq|by apply list_lookup_insert_eq].
      simpl. by rewrite list_insert_insert_eq.
    + erewrite TestProcessButtonInput_valid;
        [|by apply list_lookup_insert_eq
         |by rewrite list_lookup_insert_ne].
      simpl. by rewrite list_insert_insert_eq.
  - split; [by rewrite length_insert|].
    split; [intros k Hk; by rewrite list_lookup_insert_ne|].
    split; [by apply list_lookup_insert_eq|]. done.
Qed.

(** X8. The deltas carry the whole transition: dropping the released
    buttons from the previous mask and adding the pressed ones gives the
    current mask back, and pressed xor released is current xor previous. *)
Theorem edge_deltas_reconstruct (h : heap) c p cur prev :
  h !! c = Some cur → h !! p = Some prev →
  is_u32 (buttons_held cur) → is_u32 (buttons_held prev) →
  ∃ cur',
    TestProcessButtonInput (Some c) (Some p) h = Some (true, <[c := cur']> h) ∧
    Z.lor (Z.land (buttons_held prev) (not32 (buttons_released cur')))
          (buttons_pressed cur') = buttons_held cur ∧
    Z.lor (Z.land (buttons_held cur) (not32 (buttons_pressed cur')))
          (buttons_released cur') = buttons_held prev ∧
    Z.lxor (buttons_pressed cur') (buttons_released cur')
      = Z.lxor (buttons_held cur) (buttons_held prev).
Proof.
  intros Hc Hp Ucur Uprev.
  eexists. split; [by apply TestProcessButtonInput_valid|]. simpl.
  repeat split; bitwise n Hn;
    destruct (Z.ltb_spec n 32);
    rewrite ?(testbit_u32_high _ n Ucur), ?(testbit_u32_high _ n Uprev)
      by lia;
    destruct (Z.testbit (buttons_held cur) n),
             (Z.testbit (buttons_held prev) n); reflexivity.
Qed.

(** X9. No edge is reported exactly when the held mask did not change; in
    particular a call whose two arguments are the same state reports
    none. *)
Theorem no_edge_iff_unchanged (h : heap) c p cur prev :
  h !! c = Some cur → h !! p = Some prev →
  is_u32 (buttons_held cur) → is_u32 (buttons_held prev) →
  ∃ cur',
    TestProcessButtonInput (Some c) (Some p) h = Some (true, <[c := cur']> h) ∧
    (buttons_pressed cur' = 0 ∧ buttons_released cur' = 0
       ↔ buttons_held cur = buttons_held prev) ∧
    (c = p → buttons_pressed cur' = 0 ∧ buttons_released cur' = 0).
Proof.
  intros Hc Hp Ucur Uprev.
  eexists. split; [by apply TestProcessButtonInput_valid|]. simpl.
  assert (Heq : buttons_held cur = buttons_held prev →
                Z.land (buttons_held cur) (not32 (buttons_held prev)) = 0 ∧
                Z.land (buttons_held prev) (not32 (buttons_held cur)) = 0).
  { intros ->. split; bitwise n Hn;
      by destruct (Z.testbit (buttons_held prev) n), (n <? 32). }
  split; [split; [|exact Heq]|].
  - intros [Hpr Hre]. bitwise n Hn.
    bit_of Hpr n. bit_of Hre n.
    destruct (Z.ltb_spec n 32).
    + destruct (Z.testbit (buttons_held cur) n),
               (Z.testbit (buttons_held prev) n); done.
    + by rewrite (testbit_u32_high _ n Ucur), (testbit_u32_high _ n Uprev).
  - intros ->. apply Heq. congruence.
Qed.

(** ** The combo validator as an order on masks *)

(** X10. A combination of two required masks is satisfied exactly when both
    are; the empty combination is always satisfied; pressing further buttons
    never breaks a satisfied combination. *)
Theorem validate_combo_union (held r1 r2 : Z) :
  TestValidateButtonCombo held (Z.lor r1 r2)
    = TestValidateButtonCombo held r1 && TestValidateButtonCombo held r2 ∧
  TestValidateButtonCombo held 0 = true ∧
  (∀ extra, TestValidateButtonCombo held r1 = true →
            TestValidateButtonCombo (Z.lor held extra) r1 = true).
Proof.
  unfold TestValidateButtonCombo. split; [|split].
  - apply eq_true_iff_eq. rewrite andb_true_iff, !Z.eqb_eq. split.
    + intros H. split; bitwise n Hn; bit_of H n;
        destruct (Z.testbit held n), (Z.testbit r1 n), (Z.testbit r2 n); done.
    + intros [H1 H2]. bitwise n Hn. bit_of H1 n. bit_of H2 n.
      destruct (Z.testbit held n), (Z.testbit r1 n), (Z.testbit r2 n); done.
  - by rewrite Z.land_0_r.
  - intros extra H. apply Z.eqb_eq in H. apply Z.eqb_eq.
    bitwise n Hn. bit_of H n.
    destruct (Z.testbit held n), (Z.testbit r1 n), (Z.testbit extra n); done.
Qed.

(** Satisfaction is a partial order on masks: every mask satisfies
    itself, satisfaction is transitive, and two masks that satisfy each
    other are equal (the exact-match test). *)
Theorem validate_combo_order (a b c : Z) :
  TestValidateButtonCombo a a = true ∧
  (TestValidateButtonCombo a b = true → TestValidateButtonCombo b c = true →
   TestValidateButtonCombo a c = true) ∧
  (TestValidateButtonCombo a b = true ∧ TestValidateButtonCombo b a = true
   ↔ a = b).
Proof.
  unfold TestValidateButtonCombo. rewrite !Z.eqb_eq. split; [|split].
  - apply Z.land_diag.
  - intros Hab Hbc. bitwise n Hn. bit_of Hab n. bit_of Hbc n.
    destruct (Z.testbit a n), (Z.testbit b n), (Z.testbit c n); done.
  - split.
    + intros [Hab Hba]. rewrite Z.land_comm in Hba. congruence.
    + intros ->. split; apply Z.land_diag.
Qed.

(** ** The remap table, further *)

(** X11. The remap never merges two buttons and never invents one: two
    source codes with the same non-zero destination are equal, every
    non-zero destination is one of the twelve SNES buttons, and Select is
    the destination of no source code. *)
Theorem gc_to_snes_injective :
  (∀ g1 g2, TestMapGCButtonToSNES g1 = TestMapGCButtonToSNES g2 →
            TestMapGCButtonToSNES g1 ≠ 0 → g1 = g2) ∧
  (∀ g, TestMapGCButtonToSNES g = 0 ∨
        TestIsSNESButton (TestMapGCButtonToSNES g) = true) ∧
  (∀ g, TestMapGCButtonToSNES g ≠ SNES_SELECT).
Proof.
  assert (Hcases : ∀ g,
    (TestMapGCButtonToSNES g = 0 ∧ g ∉ gc_to_snes_table.*1) ∨
    (g, TestMapGCButtonToSNES g) ∈ gc_to_snes_table).
  { intros g. unfold TestMapGCButtonToSNES.
    repeat (match goal with
            | |- context [g =? ?k] =>
                destruct (Z.eqb_spec g k) as [->|?];
                [right; unfold gc_to_snes_table; in_table|]
            end).
    left. split; [done|]. simpl. intros Hin.
    repeat (apply elem_of_cons in Hin as [?|Hin]; [done|]).
    by apply elem_of_nil in Hin. }
  split; [|split].
  - intros g1 g2 Heq Hnz.
    destruct (Hcases g1) as [[H0 _]|H1]; [done|].
    destruct (Hcases g2) as [[H0 _]|H2]; [congruence|].
    rewrite <- Heq in H2. revert H1 H2.
    generalize (TestMapGCButtonToSNES g1). intros d H1 H2.
    cbv in H1, H2.
    repeat (apply elem_of_cons in H1 as [E1|H1];
            [repeat (apply elem_of_cons in H2 as [E2|H2];
                     [by simplify_eq|]);
             by apply elem_of_nil in H2|]).
    by apply elem_of_nil in H1.
  - intros g. destruct (Hcases g) as [[H0 _]|H1]; [by left|right].
    revert H1. generalize (TestMapGCButtonToSNES g). intros d H1.
    unfold gc_to_snes_table in H1.
    repeat (apply elem_of_cons in H1 as [[= -> ->]|H1]; [reflexivity|]).
    by apply elem_of_nil in H1.
  - intros g. destruct (Hcases g) as [[H0 _]|H1]; [by rewrite H0|].
    revert H1. generalize (TestMapGCButtonToSNES g). intros d H1.
    unfold gc_to_snes_table in H1.
    repeat (apply elem_of_cons in H1 as [[= -> ->]|H1]; [done|]).
    by apply elem_of_nil in H1.
Qed.


Lemma single_bit_log2 g : 0 < g < 2 ^ 32 → 2 ^ Z.log2 g = g → single_bit g.
Proof.
  intros Hg Hpow. exists (Z.log2 g). split; [|done].
  split; [apply Z.log2_nonneg|]. apply Z.log2_lt_pow2; lia.
Qed.

(** A mask made of two distinct single bits is not a single bit. *)
Lemma lor_not_single_bit a b :
  single_bit a → single_bit b → a ≠ b → ¬ single_bit (Z.lor a b).
Proof.
  intros Ha Hb Hne Hab.
  destruct (single_bit_testbit a Ha) as (ka & Hka & Ta).
  destruct (single_bit_testbit b Hb) as (kb & Hkb & Tb).
  destruct (single_bit_testbit _ Hab) as (k & Hk & T).
  assert (ka ≠ kb).
  { intros ->. apply Hne. apply Z.bits_inj'. intros n Hn.
    by rewrite Ta, Tb. }
  pose proof (T ka ltac:(lia)) as T1. pose proof (T kb ltac:(lia)) as T2.
  rewrite Z.lor_spec, Ta, Tb in T1, T2 by lia.
  rewrite Z.eqb_refl in T1, T2. rewrite orb_true_r in T2. simpl in T1.
  symmetry in T1, T2. apply Z.eqb_eq in T1, T2. lia.
Qed.

(** X12. Only single-button codes are remapped: a source code with a
    non-zero destination is a single bit, and so is its destination; a mask
    that combines two different buttons maps to 0. *)
Theorem gc_to_snes_single_buttons_only :
  (∀ g, TestMapGCButtonToSNES g ≠ 0 →
        single_bit g ∧ single_bit (TestMapGCButtonToSNES g)) ∧
  (∀ a b, single_bit a → single_bit b → a ≠ b →
          TestMapGCButtonToSNES (Z.lor a b) = 0).
Proof.
  assert (H1 : ∀ g, TestMapGCButtonToSNES g ≠ 0 →
                    single_bit g ∧ single_bit (TestMapGCButtonToSNES g)).
  { intros g. unfold TestMapGCButtonToSNES.
    repeat (match goal with
            | |- context [g =? ?k] =>
                destruct (Z.eqb_spec g k) as [->|_];
                [intros _; split; apply single_bit_log2;
                 first [ done | reflexivity ] |]
            end).
    done. }
  split; [exact H1|].
  intros a b Ha Hb Hne.
  destruct (decide (TestMapGCButtonToSNES (Z.lor a b) = 0)) as [|Hnz]; [done|].
  destruct (H1 _ Hnz) as [Hsb _].
  by destruct (lor_not_single_bit a b).
Qed.

(** ** The analog helpers, further *)

(** X13. A stick is in the deadzone exactly when both axes lie strictly
    between -deadzone and deadzone, so nothing is in a deadzone of 0 or
    less; a stick in a deadzone no larger than threshold + 1 yields no
    direction. *)
Theorem deadzone_spec (x y deadzone : Z) :
  (TestStickDeadzone x y deadzone = true
     ↔ - deadzone < x < deadzone ∧ - deadzone < y < deadzone) ∧
  (deadzone <= 0 → TestStickDeadzone x y deadzone = false) ∧
  (∀ threshold, TestStickDeadzone x y deadzone = true →
                deadzone <= threshold + 1 →
                TestStickToDigital x y threshold = 0).
Proof.
  assert (Hiff : TestStickDeadzone x y deadzone = true
                 ↔ - deadzone < x < deadzone ∧ - deadzone < y < deadzone).
  { unfold TestStickDeadzone. rewrite andb_true_iff, !Z.ltb_lt. lia. }
  split; [exact Hiff|]. split.
  - intros Hd. apply not_true_is_false. rewrite Hiff. lia.
  - intros t Hin Ht. apply Hiff in Hin. unfold TestStickToDigital.
    rewrite (Z.gtb_ltb x), (Z.gtb_ltb y).
    destruct (Z.ltb_spec x (- t)), (Z.ltb_spec t x),
      (Z.ltb_spec y (- t)), (Z.ltb_spec t y); first [lia | reflexivity].
Qed.

(** X14. With a threshold of 0 or more, opposite directions are never
    reported together and the result is 0 exactly when both axes are within
    [-threshold, threshold]; with a negative threshold every stick position
    reports a horizontal and a vertical direction. *)
Theorem stick_to_digital_directions (x y threshold : Z) :
  let d := TestStickToDigital x y threshold in
  (0 <= threshold →
     Z.land d (Z.lor SNES_LEFT SNES_RIGHT) ≠ Z.lor SNES_LEFT SNES_RIGHT ∧
     Z.land d (Z.lor SNES_DOWN SNES_UP) ≠ Z.lor SNES_DOWN SNES_UP) ∧
  (d = 0 ↔ - threshold <= x <= threshold ∧ - threshold <= y <= threshold) ∧
  (threshold < 0 →
     Z.land d (Z.lor SNES_LEFT SNES_RIGHT) ≠ 0 ∧
     Z.land d (Z.lor SNES_DOWN SNES_UP) ≠ 0).
Proof.
  intros d. subst d. unfold_stick.
  rewrite (Z.gtb_ltb x), (Z.gtb_ltb y).
  destruct (Z.ltb_spec x (- threshold)), (Z.ltb_spec threshold x),
    (Z.ltb_spec y (- threshold)), (Z.ltb_spec threshold y);
    simpl; (split; [|split]); intros;
    first [ lia | split; first [ lia | discriminate ]
          | split; intros; first [ lia | discriminate | reflexivity ] ].
Qed.


(** * tests/unit/test_button_mapping.cpp *)

Lemma valid_controller_cases c :
  TestIsValidController c = true ↔
  c = CTRLR_GCPAD ∨ c = CTRLR_WIIMOTE ∨ c = CTRLR_NUNCHUK ∨
  c = CTRLR_CLASSIC ∨ c = CTRLR_WUPC ∨ c = CTRLR_WIIDRC.
Proof.
  unfold TestIsValidController, CTRLR_GCPAD, CTRLR_WIIMOTE, CTRLR_NUNCHUK,
    CTRLR_CLASSIC, CTRLR_WUPC, CTRLR_WIIDRC.
  rewrite andb_true_iff, Z.geb_le, Z.leb_le. lia.
Qed.

(** X15. The three controller tables agree: a number is a valid controller
    exactly when it has a non-zero button count and exactly when it has a
    name other than "Unknown Controller"; valid controllers with the same
    name are the same; no count exceeds 14. *)
Theorem controller_tables_agree :
  (∀ c, TestIsValidController c = true ↔ TestGetControllerButtonCount c ≠ 0) ∧
  (∀ c, TestIsValidController c = true
        ↔ TestGetControllerName c ≠ "Unknown Controller"%string) ∧
  (∀ c1 c2, TestIsValidController c1 = true → TestIsValidController c2 = true →
            TestGetControllerName c1 = TestGetControllerName c2 → c1 = c2) ∧
  (∀ c, 0 <= TestGetControllerButtonCount c <= 14).
Proof.
  split; [|split; [|split]].
  - intros c. rewrite valid_controller_cases.
    unfold TestGetControllerButtonCount.
    repeat (match goal with
            | |- context [c =? ?k] =>
                destruct (Z.eqb_spec c k) as [->|?];
                [split; [done | intros _; tauto]|]
            end).
    split; [intros [|[|[|[|[|]]]]]; done | done].
  - intros c. rewrite valid_controller_cases.
    unfold TestGetControllerName.
    repeat (match goal with
            | |- context [c =? ?k] =>
                destruct (Z.eqb_spec c k) as [->|?];
                [split; [done | intros _; tauto]|]
            end).
    split; [intros [|[|[|[|[|]]]]]; done | done].
  - intros c1 c2 H1 H2.
    apply valid_controller_cases in H1, H2.
    destruct H1 as [->|[->|[->|[->|[->| ->]]]]];
      destruct H2 as [->|[->|[->|[->|[->| ->]]]]];
      first [ reflexivity | discriminate ].
  - intros c. unfold TestGetControllerButtonCount.
    repeat (match goal with
            | |- context [c =? ?k] => destruct (c =? k); [lia|]
            end).
    lia.
Qed.

(** The object after a successful [TestMapButton]. *)
Lemma TestMapButton_success (c : CtrlrMap) i v s :
  0 <= i < 15 → i < num_btns c →
  TestMapButton (Some c) i v s =
  (true, Some (mkCtrlrMap (type c) (num_btns c)
                 (alter (λ _, mkBtnMap v s) (Z.to_nat i) (map c)))).
Proof.
  intros Hi Hn. unfold TestMapButton.
  destruct (Z.ltb_spec i 0); [lia|].
  rewrite Z.geb_leb. destruct (Z.leb_spec 15 i); [lia|]. simpl.
  rewrite Z.geb_leb. destruct (Z.leb_spec (num_btns c) i); [lia|].
  unfold set_name, set_btn. simpl. do 3 f_equal.
  rewrite list_alter_alter_eq. by apply list_alter_ext.
Qed.

Lemma TestMapButton_failure (c : CtrlrMap) i v s :
  ¬ (0 <= i < 15 ∧ i < num_btns c) →
  TestMapButton (Some c) i v s = (false, Some c).
Proof.
  intros Hi. unfold TestMapButton.
  destruct (Z.ltb_spec i 0); [done|].
  rewrite Z.geb_leb. destruct (Z.leb_spec 15 i); [done|]. simpl.
  rewrite Z.geb_leb. destruct (Z.leb_spec (num_btns c) i); [done|]. lia.
Qed.

(** X16. [TestMapButton] succeeds exactly for an index that is below both
    15 and [num_btns] and not negative. On success the entry at that index
    holds the new value and name and nothing else changes; on failure, and
    for a null controller, nothing changes at all. *)
Theorem map_button_spec (c : CtrlrMap) i v s :
  wf_CtrlrMap c →
  ((TestMapButton (Some c) i v s).1 = true ↔ 0 <= i < 15 ∧ i < num_btns c) ∧
  ((TestMapButton (Some c) i v s).1 = true →
     ∃ c', (TestMapButton (Some c) i v s).2 = Some c' ∧
           wf_CtrlrMap c' ∧ type c' = type c ∧ num_btns c' = num_btns c ∧
           map c' !! Z.to_nat i = Some (mkBtnMap v s) ∧
           ∀ j, j ≠ Z.to_nat i → map c' !! j = map c !! j) ∧
  ((TestMapButton (Some c) i v s).1 = false →
     (TestMapButton (Some c) i v s).2 = Some c) ∧
  TestMapButton None i v s = (false, None).
Proof.
  intros Hwf. unfold wf_CtrlrMap, CTRLR_MAP_SIZE in *.
  destruct (decide (0 <= i < 15 ∧ i < num_btns c)) as [[Hi Hn]|Hno].
  - rewrite TestMapButton_success by done. simpl.
    split; [done|]. split; [|split; [done|done]].
    intros _. eexists. split; [done|]. simpl.
    split; [by rewrite length_alter|]. split; [done|]. split; [done|].
    split.
    + rewrite list_lookup_alter_eq.
      destruct (lookup_lt_is_Some_2 (map c) (Z.to_nat i)) as [e ->]; [lia|].
      done.
    + intros j Hj. by rewrite list_lookup_alter_ne.
  - rewrite TestMapButton_failure by done. simpl.
    split; [split; [done|tauto]|]. done.
Qed.

(** X17. With [num_btns] taken from [TestGetControllerButtonCount], the
    guard against the array size is never the one that rejects: an index is
    accepted exactly when it is a button of that controller, and nothing can
    be mapped on a number that is not a valid controller. *)
Theorem map_button_with_count (c : CtrlrMap) k i v s :
  num_btns c = TestGetControllerButtonCount k →
  ((TestMapButton (Some c) i v s).1 = true
     ↔ 0 <= i < TestGetControllerButtonCount k) ∧
  (TestIsValidController k = false → (TestMapButton (Some c) i v s).1 = false).
Proof.
  intros Hn.
  assert (Hcount : 0 <= TestGetControllerButtonCount k <= 14).
  { unfold TestGetControllerButtonCount.
    repeat (match goal with
            | |- context [k =? ?j] => destruct (k =? j); [lia|]
            end).
    lia. }
  assert (Hiff : (TestMapButton (Some c) i v s).1 = true
                 ↔ 0 <= i < TestGetControllerButtonCount k).
  { destruct (decide (0 <= i < 15 ∧ i < num_btns c)) as [[Hi Hlt]|Hno].
    - rewrite TestMapButton_success by done. simpl. split; [lia|done].
    - rewrite TestMapButton_failure by done. simpl. split; [done|lia]. }
  split; [exact Hiff|].
  intros Hinv. apply not_true_is_false. rewrite Hiff.
  assert (TestGetControllerButtonCount k = 0); [|lia].
  unfold TestGetControllerButtonCount.
  repeat (match goal with
          | |- context [k =? ?j] =>
              destruct (Z.eqb_spec k j) as [->|?]; [discriminate Hinv|]
          end).
  done.
Qed.

Lemma TestMapButton_snd (c : CtrlrMap) i v s :
  (TestMapButton (Some c) i v s).2 =
  Some (if decide (0 <= i < 15 ∧ i < num_btns c)
        then mkCtrlrMap (type c) (num_btns c)
               (alter (λ _, mkBtnMap v s) (Z.to_nat i) (map c))
        else c).
Proof.
  case_decide as H.
  - destruct H. by rewrite TestMapButton_success.
  - by rewrite TestMapButton_failure.
Qed.

(** X18. Mappings compose as array writes: two calls for different indices
    can be swapped, and of two calls for the same index the later one
    wins, whether the calls succeed or not. *)
Theorem map_button_compose (c : CtrlrMap) i j v s v' s' :
  (i ≠ j →
     (TestMapButton (TestMapButton (Some c) i v s).2 j v' s').2
     = (TestMapButton (TestMapButton (Some c) j v' s').2 i v s).2) ∧
  (TestMapButton (TestMapButton (Some c) i v s).2 i v' s').2
  = (TestMapButton (Some c) i v' s').2.
Proof.
  split.
  - intros Hij. rewrite (TestMapButton_snd c i), (TestMapButton_snd c j).
    rewrite !TestMapButton_snd.
    destruct (decide (0 <= i < 15 ∧ i < num_btns c)) as [Hi|Hi];
      destruct (decide (0 <= j < 15 ∧ j < num_btns c)) as [Hj|Hj];
      cbn [type num_btns map];
      rewrite ?(decide_True _ _ Hi), ?(decide_True _ _ Hj),
        ?(decide_False _ _ Hi), ?(decide_False _ _ Hj); try done.
    do 2 f_equal. apply list_alter_alter_ne. lia.
  - rewrite (TestMapButton_snd c i). rewrite !TestMapButton_snd.
    destruct (decide (0 <= i < 15 ∧ i < num_btns c)) as [Hi|Hi];
      cbn [type num_btns map];
      rewrite ?(decide_True _ _ Hi), ?(decide_False _ _ Hi); try done.
    do 2 f_equal. rewrite list_alter_alter_eq. by apply list_alter_ext.
Qed.


(** * tests/unit/test_fileop.cpp *)

Lemma strchr_Some (s : cstr) ch k :
  strchr s ch = Some k ↔ s !! k = Some ch ∧ ch ∉ take k s.
Proof.
  revert k. induction s as [|a s IH]; intros k; simpl.
  - split; [done|]. by intros [? _].
  - case_decide as Ha.
    + subst a. split.
      * intros [= <-]. split; [done|]. simpl. apply not_elem_of_nil.
      * intros [Hk Hnot]. destruct k as [|k]; [done|].
        exfalso. apply Hnot. simpl. left.
    + destruct k as [|k]; simpl.
      * split; [by destruct (strchr s ch)|]. intros [[= ->] _]. done.
      * rewrite not_elem_of_cons. split.
        -- destruct (strchr s ch) as [j|]; [|done].
           simpl. intros [= <-].
           destruct (proj1 (IH j) eq_refl) as [? ?]. repeat split; congruence.
        -- intros [Hk [_ Hnot]]. by rewrite (proj2 (IH k)).
Qed.

Lemma strchr_None (s : cstr) ch : strchr s ch = None ↔ ch ∉ s.
Proof.
  induction s as [|a s IH]; simpl.
  - split; [intros _; apply not_elem_of_nil|done].
  - rewrite not_elem_of_cons. case_decide as Ha.
    + split; [done|]. intros [? _]. congruence.
    + rewrite <- IH. destruct (strchr s ch); simpl.
      * split; [done|]. by intros [_ ?].
      * split; [|done]. intros _. split; [congruence|done].
Qed.

Lemma strchr_app (dev rest : cstr) ch :
  ch ∉ dev → strchr (dev ++ ch :: rest) ch = Some (length dev).
Proof.
  intros Hdev. apply strchr_Some. split.
  - by rewrite list_lookup_middle.
  - by rewrite take_app_length.
Qed.

Lemma strrchr_None (s : cstr) ch : strrchr s ch = None ↔ ch ∉ s.
Proof.
  induction s as [|a s IH]; simpl.
  - split; [intros _; apply not_elem_of_nil|done].
  - rewrite not_elem_of_cons. destruct (strrchr s ch) as [k|].
    + split; [done|]. intros [_ H]. by apply IH in H.
    + case_decide as Ha.
      * split; [done|]. intros [? _]. congruence.
      * split; [|done]. intros _. split; [congruence|by apply IH].
Qed.

Lemma strrchr_app (stem e : cstr) ch :
  ch ∉ e → strrchr (stem ++ ch :: e) ch = Some (length stem).
Proof.
  intros He. induction stem as [|a stem IH]; simpl.
  - apply strrchr_None in He. rewrite He. by rewrite decide_True.
  - by rewrite IH.
Qed.

Lemma strrchr_Some (s : cstr) ch k :
  strrchr s ch = Some k →
  s = take k s ++ ch :: drop (S k) s ∧ ch ∉ drop (S k) s.
Proof.
  revert k. induction s as [|a s IH]; intros k; simpl; [done|].
  destruct (strrchr s ch) as [j|] eqn:Hj.
  - intros [= <-]. destruct (IH j eq_refl) as [Heq Hnot].
    simpl. split; [by f_equal|done].
  - case_decide as Ha; [|done]. intros [= <-]. subst a. simpl.
    rewrite drop_0. split; [done|]. by apply strrchr_None.
Qed.

Lemma lookup_after_prefix (dev rest : cstr) x y :
  (dev ++ x :: y :: rest) !! (length dev + 1)%nat = Some y.
Proof.
  rewrite lookup_app_r by lia.
  by replace (length dev + 1 - length dev)%nat with 1%nat by lia.
Qed.

Lemma TestStripDevice_prefix (dev rest old : cstr) :
  ":"%char ∉ dev →
  TestStripDevice (Some (dev ++ ":" :: "/" :: rest)%char) (Some old)
  = (true, Some ("/"%char :: rest)).
Proof.
  intros Hnot. unfold TestStripDevice.
  rewrite strchr_app by done.
  rewrite decide_True by apply lookup_after_prefix.
  by rewrite drop_app_add.
Qed.

(** X19. [TestStripDevice] removes a device prefix and nothing else: a path
    [dev:/rest] whose device name has no colon yields [/rest] and true;
    a result of true always comes from such a path; otherwise the path is
    copied unchanged and the result is false. Null arguments give false and
    leave the buffer alone. *)
Theorem strip_device_spec (p old : cstr) :
  (∀ dev rest : cstr, ":"%char ∉ dev →
     TestStripDevice (Some (dev ++ ":" :: "/" :: rest)%char) (Some old)
     = (true, Some ("/"%char :: rest))) ∧
  (TestStripDevice (Some p) (Some old) = (false, Some p) ∨
   ∃ dev rest : cstr,
     (":"%char ∉ dev) ∧ p = (dev ++ ":" :: "/" :: rest)%char ∧
     TestStripDevice (Some p) (Some old) = (true, Some ("/"%char :: rest))) ∧
  (∀ result, TestStripDevice None result = (false, result)) ∧
  (∀ path, TestStripDevice path None = (false, None)).
Proof.
  split; [intros dev rest; apply TestStripDevice_prefix|].
  split; [|split; [done|by intros [?|]]].
  unfold TestStripDevice.
  destruct (strchr p ":"%char) as [k|] eqn:Hk; [|by left].
  case_decide as Hslash; [|by left]. right.
  apply strchr_Some in Hk as [Hcolon Hnot].
  exists (take k p), (drop (k + 2) p).
  assert (Hp : p = (take k p ++ ":" :: "/" :: drop (k + 2) p)%char).
  { rewrite <- (take_drop k p) at 1. f_equal.
    rewrite (drop_S _ ":"%char k) by done. f_equal.
    replace (S k) with (k + 1)%nat by lia.
    rewrite (drop_S _ "/"%char (k + 1)) by done.
    do 2 f_equal. lia. }
  split; [done|]. split; [done|].
  do 2 f_equal. rewrite Hp at 1.
  rewrite drop_app_add'; [done|].
  rewrite length_take_le; [done|].
  apply lookup_lt_Some in Hcolon. lia.
Qed.

(** X20. Only the first colon counts. When the character after it is not a
    slash the path is kept whole, whatever follows; a stripped path that
    still holds a device prefix is stripped again by a second call, so the
    function removes one prefix per call, and a stripped path without a
    colon is left alone by further calls. *)
Theorem strip_device_first_colon (old : cstr) :
  (∀ (dev rest : cstr) ch, ":"%char ∉ dev → ch ≠ "/"%char →
     TestStripDevice (Some (dev ++ ":"%char :: ch :: rest)) (Some old)
     = (false, Some (dev ++ ":"%char :: ch :: rest))) ∧
  (∀ dev : cstr, ":"%char ∉ dev →
     TestStripDevice (Some (dev ++ [":"%char])) (Some old)
     = (false, Some (dev ++ [":"%char]))) ∧
  (∀ d1 d2 rest : cstr, ":"%char ∉ d1 → ":"%char ∉ d2 →
     ∃ r1,
       TestStripDevice
         (Some (d1 ++ ":" :: "/" :: d2 ++ ":" :: "/" :: rest)%char) (Some old)
       = (true, Some r1) ∧
       TestStripDevice (Some r1) (Some r1) = (true, Some ("/"%char :: rest))) ∧
  (∀ p r : cstr, TestStripDevice (Some p) (Some old) = (true, Some r) →
     ":"%char ∉ r → TestStripDevice (Some r) (Some r) = (false, Some r)).
Proof.
  split; [|split; [|split]].
  - intros dev rest ch Hnot Hch. unfold TestStripDevice.
    rewrite strchr_app by done.
    rewrite decide_False; [done|].
    rewrite lookup_after_prefix. congruence.
  - intros dev Hnot. unfold TestStripDevice.
    rewrite strchr_app by done.
    rewrite decide_False; [done|].
    rewrite lookup_ge_None_2; [done|]. rewrite length_app. simpl. lia.
  - intros d1 d2 rest H1 H2. eexists. split.
    + by apply TestStripDevice_prefix.
    + apply (TestStripDevice_prefix ("/"%char :: d2) rest).
      rewrite not_elem_of_cons. split; [done|done].
  - intros p r _ Hr. unfold TestStripDevice.
    apply strchr_None in Hr. by rewrite Hr.
Qed.


Lemma TestCreatePath_eq (d f old : cstr) :
  TestCreatePath (Some d) (Some f) (Some old)
  = (true, Some (d ++ path_sep d ++ f)).
Proof.
  unfold TestCreatePath, path_sep. rewrite last_lookup.
  replace (length d - 1)%nat with (pred (length d)) by lia.
  destruct d as [|a d]; [done|].
  change (0 <? length (a :: d))%nat with true. cbn [andb].
  destruct ((a :: d) !! pred (length (a :: d))) as [c|] eqn:Hc.
  - destruct (decide (c = "/"%char)) as [->|Hne].
    + by rewrite bool_decide_eq_true_2.
    + rewrite bool_decide_eq_false_2 by congruence. simpl.
      by rewrite <- app_assoc.
  - apply lookup_ge_None_1 in Hc. simpl in Hc. lia.
Qed.

Lemma path_sep_app (pre d : cstr) : d ≠ [] → path_sep (pre ++ d) = path_sep d.
Proof.
  intros Hd. unfold path_sep. rewrite last_app.
  destruct (last d) eqn:Hl; [done|]. by apply last_None in Hl.
Qed.

(** X21. [TestCreatePath] joins with exactly one separator where the
    directory brings none: a non-empty directory gives the same path with
    or without its trailing slash, and an empty directory gives the file
    name alone. Joining commutes with [TestStripDevice]: stripping the
    device from a joined path is joining onto the stripped directory. *)
Theorem create_path_spec (d f old old' : cstr) :
  TestCreatePath (Some []) (Some f) (Some old) = (true, Some f) ∧
  (∀ c, c ≠ "/"%char →
     TestCreatePath (Some (d ++ [c])) (Some f) (Some old)
     = (true, Some (d ++ c :: "/"%char :: f)) ∧
     TestCreatePath (Some (d ++ [c; "/"%char])) (Some f) (Some old)
     = (true, Some (d ++ c :: "/"%char :: f))) ∧
  (∀ dev : cstr, ":"%char ∉ dev →
     ∃ r,
       TestCreatePath (Some ("/"%char :: d)) (Some f) (Some old)
       = (true, Some r) ∧
       TestCreatePath (Some (dev ++ ":"%char :: "/"%char :: d)) (Some f)
         (Some old) = (true, Some (dev ++ ":"%char :: r)) ∧
       TestStripDevice (Some (dev ++ ":"%char :: r)) (Some old')
       = (true, Some r)) ∧
  TestCreatePath None (Some f) (Some old) = (false, Some old) ∧
  TestCreatePath (Some d) None (Some old) = (false, Some old).
Proof.
  split; [done|]. split; [|split; [|done]].
  - intros c Hc. split.
    + rewrite TestCreatePath_eq. unfold path_sep.
      rewrite last_snoc, decide_False by done.
      by rewrite <- !app_assoc.
    + replace (d ++ [c; "/"%char]) with ((d ++ [c]) ++ ["/"%char])
        by (by rewrite <- app_assoc).
      rewrite TestCreatePath_eq. unfold path_sep.
      rewrite last_snoc, decide_True by done.
      by rewrite <- !app_assoc.
  - intros dev Hdev.
    exists (("/"%char :: d) ++ path_sep ("/"%char :: d) ++ f).
    split; [apply TestCreatePath_eq|]. split.
    + rewrite TestCreatePath_eq.
      replace (dev ++ ":"%char :: "/"%char :: d)
        with ((dev ++ [":"%char]) ++ "/"%char :: d)
        by (by rewrite <- app_assoc).
      rewrite path_sep_app by done.
      by rewrite <- !app_assoc.
    + by apply TestStripDevice_prefix.
Qed.

(** X22. The extension returned for a file name never contains a dot. It is
    non-empty only for a name of the form stem.ext with a non-empty stem,
    and every such name whose ext has no dot gives ext back; a name without
    a dot, or whose only dot is its first character, has the empty
    extension; a null name gives null. *)
Theorem file_extension_spec (f : cstr) :
  (∃ ext,
     TestGetFileExtension (Some f) = Some ext ∧ ("."%char ∉ ext) ∧
     (ext ≠ [] → ∃ stem, stem ≠ [] ∧ f = stem ++ "."%char :: ext) ∧
     ("."%char ∉ f → ext = [])) ∧
  (∀ stem e : cstr, stem ≠ [] → "."%char ∉ e →
     TestGetFileExtension (Some (stem ++ "."%char :: e)) = Some e) ∧
  (∀ e : cstr, "."%char ∉ e →
     TestGetFileExtension (Some ("."%char :: e)) = Some []) ∧
  TestGetFileExtension None = None.
Proof.
  split; [|split; [|split; [|done]]].
  - unfold TestGetFileExtension.
    destruct (strrchr f "."%char) as [k|] eqn:Hk.
    + apply strrchr_Some in Hk as [Hf Hnot].
      case_decide as Hk0.
      * exists []. split; [done|]. split; [apply not_elem_of_nil|].
        split; done.
      * exists (drop (k + 1) f).
        replace (k + 1)%nat with (S k) by lia.
        split; [done|]. split; [done|]. split.
        -- intros _. exists (take k f). split; [|done].
           destruct k; [done|]. destruct f; [|done].
           by rewrite take_nil in Hf.
        -- intros Hnone. exfalso. apply Hnone. rewrite Hf.
           apply elem_of_app. right. left.
    + exists []. split; [done|]. split; [apply not_elem_of_nil|].
      split; done.
  - intros stem e Hstem He. unfold TestGetFileExtension.
    rewrite strrchr_app by done.
    rewrite decide_False by (by destruct stem).
    by rewrite drop_app_add.
  - intros e He. unfold TestGetFileExtension.
    cbn [strrchr]. rewrite (proj2 (strrchr_None e _) He).
    by rewrite decide_True.
Qed.

(** X23. The leading-dot rule looks at the start of the whole string, not of
    the file name: below a non-empty directory a name such as [.hidden] has
    the extension [hidden]. In general the extension of a joined path is
    the part after the last dot of the file name whenever the directory or
    the stem is not empty. *)
Theorem extension_of_created_path (dir stem e old : cstr) :
  "."%char ∉ e → dir ≠ [] ∨ stem ≠ [] →
  TestGetFileExtension
    (TestCreatePath (Some dir) (Some (stem ++ "."%char :: e)) (Some old)).2
  = Some e.
Proof.
  intros He Hne. rewrite TestCreatePath_eq. cbn [snd].
  rewrite !app_assoc. unfold TestGetFileExtension.
  rewrite strrchr_app by done.
  rewrite decide_False.
  - by rewrite drop_app_add.
  - rewrite !length_app. destruct Hne as [Hd|Hs].
    + destruct dir; [done|]. simpl. lia.
    + destruct stem; [done|]. simpl. lia.
Qed.


(** * Buffer copies: test_fileop.cpp and test_memory.cpp *)

Lemma memcpy_eq (d s : list Z) n :
  (n ≤ length s)%nat → (n ≤ length d)%nat →
  memcpy d s n = take n s ++ drop n d.
Proof.
  intros Hs Hd. unfold memcpy.
  rewrite list_inserts_0_prefix by (rewrite length_take; lia).
  by rewrite length_take_le.
Qed.

Lemma buf_strlen_nonzero (l : list Z) :
  Forall (λ b, b ≠ 0) l → buf_strlen l = None.
Proof.
  induction 1 as [|b l Hb _ IH]; simpl; [done|].
  rewrite decide_False by done. by rewrite IH.
Qed.

Lemma buf_strlen_terminated (pre post : list Z) :
  ∃ k, buf_strlen (pre ++ 0 :: post) = Some k ∧ (k ≤ length pre)%nat ∧
       (Forall (λ b, b ≠ 0) pre → k = length pre).
Proof.
  induction pre as [|b pre (k & Hk & Hle & Hfull)]; simpl.
  - exists 0%nat. split; [done|]. split; [lia|done].
  - destruct (decide (b = 0)) as [->|Hb].
    + exists 0%nat. split; [done|]. split; [lia|].
      intros Hall. by apply Forall_cons in Hall as [? _].
    + exists (S k). rewrite Hk. split; [done|]. split; [lia|].
      intros Hall. apply Forall_cons in Hall as [_ Hall].
      by rewrite Hfull.
Qed.

(** X24. [TestSafeMemcpy] always leaves a terminated string that fits: on
    success the buffer holds the first min(srcSize, destSize - 1) source
    bytes followed by a NUL, the bytes after that NUL are untouched, and the
    string read back is at most destSize - 1 long (exactly the copied bytes
    when they hold no NUL). It fails, leaving the buffer alone, when a size
    is 0 or a pointer is null. *)
Theorem safe_memcpy_spec (d s : list Z) (destSize srcSize : nat) :
  (destSize ≤ length d)%nat → (srcSize ≤ length s)%nat →
  (destSize = 0%nat ∨ srcSize = 0%nat →
     TestSafeMemcpy (Some d) (Some s) destSize srcSize = (false, Some d)) ∧
  ((0 < destSize)%nat → (0 < srcSize)%nat →
     ∃ d' n k,
       n = (srcSize `min` (destSize - 1))%nat ∧
       TestSafeMemcpy (Some d) (Some s) destSize srcSize = (true, Some d') ∧
       d' = take n s ++ 0 :: drop (S n) d ∧
       length d' = length d ∧
       buf_strlen d' = Some k ∧ (k ≤ n < destSize)%nat ∧
       (Forall (λ b, b ≠ 0) (take n s) → k = n)) ∧
  TestSafeMemcpy None (Some s) destSize srcSize = (false, None) ∧
  TestSafeMemcpy (Some d) None destSize srcSize = (false, Some d).
Proof.
  intros Hd Hs. split; [|split; [|done]].
  - intros [-> | ->]; unfold TestSafeMemcpy; [done|].
    by rewrite orb_true_r.
  - intros Hd0 Hs0. unfold TestSafeMemcpy.
    destruct destSize as [|m]; [lia|]. destruct srcSize as [|q]; [lia|].
    cbn [Nat.eqb orb].
    set (n := (S q `min` (S m - 1))%nat).
    assert (Hn : (if (S q <? S m - 1)%nat then S q else (S m - 1)%nat) = n).
    { subst n. destruct (Nat.ltb_spec (S q) (S m - 1)); lia. }
    rewrite Hn.
    assert (Hd' : <[n := 0]> (memcpy d s n) = take n s ++ 0 :: drop (S n) d).
    { rewrite memcpy_eq by lia.
      rewrite insert_app_r_alt by (rewrite length_take; lia).
      rewrite length_take_le by lia. rewrite Nat.sub_diag.
      destruct (drop n d) as [|x tl] eqn:Hdrop.
      - apply (f_equal length) in Hdrop. rewrite length_drop in Hdrop.
        simpl in Hdrop. lia.
      - assert (Htl : drop (S n) d = tl).
        { replace (S n) with (n + 1)%nat by lia.
          by rewrite <- drop_drop, Hdrop. }
        by rewrite Htl. }
    destruct (buf_strlen_terminated (take n s) (drop (S n) d))
      as (k & Hk & Hle & Hfull).
    exists (take n s ++ 0 :: drop (S n) d), n, k.
    split; [done|]. split; [by rewrite Hd'|]. split; [done|].
    rewrite length_take_le in Hle, Hfull by lia.
    split; [|split; [done|split; [lia|done]]].
    rewrite length_app, length_take_le by lia. simpl.
    rewrite length_drop. lia.
Qed.

(** X25. [TestSafeBufferCopy] fills the whole destination: the first
    min(srcSize, destSize) bytes are source bytes and the rest is zeroed.
    It adds no terminator of its own: when the source is at least as long
    as the destination, every byte of the destination is a source byte, so
    a source without NUL in that range leaves no NUL in the buffer. *)
Theorem safe_buffer_copy_spec (d s : list Z) (destSize srcSize : nat) :
  (0 < destSize ≤ length d)%nat → (srcSize ≤ length s)%nat →
  ∃ d',
    TestSafeBufferCopy (Some d) destSize (Some s) srcSize = (true, Some d') ∧
    d' = take (srcSize `min` destSize) s
         ++ replicate (destSize - srcSize) 0 ++ drop destSize d ∧
    length d' = length d ∧
    ((srcSize < destSize)%nat → d' !! srcSize = Some 0) ∧
    ((destSize ≤ srcSize)%nat →
       take destSize d' = take destSize s ∧
       (Forall (λ b, b ≠ 0) (take destSize s) →
        buf_strlen (take destSize d') = None)).
Proof.
  intros [Hd0 Hd] Hs. unfold TestSafeBufferCopy.
  destruct (Nat.eqb_spec destSize 0); [lia|].
  destruct (Nat.ltb_spec srcSize destSize) as [Hlt|Hge].
  - rewrite Nat.min_l by lia.
    rewrite (proj2 (Nat.ltb_lt _ _) Hlt).
    rewrite memcpy_eq by lia. unfold memset.
    assert (Hcopy :
      list_inserts srcSize (replicate (destSize - srcSize) 0)
        (take srcSize s ++ drop srcSize d)
      = take srcSize s ++ replicate (destSize - srcSize) 0 ++ drop destSize d).
    { rewrite <- (length_take_le s srcSize) at 1 by lia.
      rewrite <- (Nat.add_0_r (length (take srcSize s))).
      rewrite list_inserts_app_r. f_equal.
      rewrite <- (take_drop (destSize - srcSize) (drop srcSize d)) at 1.
      rewrite list_inserts_0_r.
      - rewrite drop_drop. do 2 f_equal. lia.
      - rewrite length_replicate, length_take, length_drop. lia. }
    eexists. split; [by rewrite Hcopy|]. split; [done|].
    split; [|split; [|lia]].
    + rewrite !length_app, length_take_le, length_replicate, length_drop; lia.
    + intros _. rewrite lookup_app_r by (rewrite length_take; lia).
      rewrite length_take_le by lia. rewrite Nat.sub_diag.
      destruct (destSize - srcSize)%nat eqn:E; [lia|]. done.
  - rewrite Nat.min_r by lia. rewrite Nat.ltb_irrefl.
    rewrite memcpy_eq by lia.
    replace (destSize - srcSize)%nat with 0%nat by lia. simpl.
    eexists. split; [done|]. split; [done|].
    split; [|split; [lia|]].
    + rewrite length_app, length_take_le, length_drop; lia.
    + intros _.
      assert (Htake : take destSize (take destSize s ++ drop destSize d)
                      = take destSize s).
      { apply take_app_length'. rewrite length_take_le; lia. }
      rewrite Htake. split; [done|]. apply buf_strlen_nonzero.
Qed.


(** * tests/unit/test_filter.cpp *)

Ltac filter_cases f :=
  repeat (match goal with
          | |- context [f =? ?k] => destruct (Z.eqb_spec f k) as [->|?]
          end; try done).

(** X26. The two classifications of filters coincide: a filter doubles the
    resolution exactly when it requires a second buffer, every scale is 1
    or 2, and a value that is no enumerator counts as a 1x filter needing no
    buffer. *)
Theorem filter_classification (f : Z) :
  TestIs2xFilter f = TestFilterRequiresDoubleBuffer f ∧
  (TestGetFilterScale f = 1 ∨ TestGetFilterScale f = 2) ∧
  (¬ (0 <= f <= 11) →
     TestGetFilterScale f = 1 ∧ TestFilterRequiresDoubleBuffer f = false).
Proof.
  unfold TestIs2xFilter, TestFilterRequiresDoubleBuffer, TestGetFilterScale.
  split; [|split].
  - filter_cases f.
  - filter_cases f; first [by left | by right].
  - intros Hout.
    unfold FILTER_NONE, FILTER_HQ2X, FILTER_HQ2X_SOFT, FILTER_HQ2X_BOLD,
      FILTER_SCANLINES, FILTER_TV_MODE, FILTER_2XSAI, FILTER_SUPER2XSAI,
      FILTER_SUPEREAGLE, FILTER_LQ2X, FILTER_2XBRSAI, FILTER_2XBRZ.
    repeat (match goal with
            | |- context [f =? ?k] => destruct (Z.eqb_spec f k); [lia|]
            end).
    done.
Qed.

Lemma valid_format_cases (i : GraphicsFormat) :
  TestValidateGraphicsFormat (Some i) = true ↔
  0 < width i ∧ 0 < height i ∧ width i * (bpp i ÷ 8) <= pitch i ∧
  (bpp i = 16 ∨ bpp i = 32).
Proof.
  unfold TestValidateGraphicsFormat.
  rewrite !andb_true_iff, orb_true_iff, !Z.gtb_ltb, !Z.ltb_lt, Z.geb_le,
    !Z.eqb_eq.
  tauto.
Qed.

Lemma filter_scale_cases f : TestGetFilterScale f = 1 ∨ TestGetFilterScale f = 2.
Proof. unfold TestGetFilterScale. filter_cases f; first [by left | by right]. Qed.

(** X27. The output format computed for a valid input format is itself
    valid, for every filter: its sides are the input sides times the scale,
    its depth is the input depth and its pitch is tight. The format
    computed for a null input is rejected by the validation. *)
Theorem output_format_valid (i : GraphicsFormat) (f : Z) :
  TestValidateGraphicsFormat (Some i) = true →
  8 * width i <= INT_MAX → 2 * height i <= INT_MAX →
  let o := TestCalculateOutputFormat (Some i) f in
  TestValidateGraphicsFormat (Some o) = true ∧
  width o = width i * TestGetFilterScale f ∧
  height o = height i * TestGetFilterScale f ∧
  bpp o = bpp i ∧
  pitch o = width o * (bpp o ÷ 8) ∧
  TestValidateGraphicsFormat (Some (TestCalculateOutputFormat None f)) = false.
Proof.
  intros Hvalid _ _ o. subst o.
  apply valid_format_cases in Hvalid as (Hw & Hh & Hp & Hb).
  split; [|done].
  apply valid_format_cases. unfold TestCalculateOutputFormat. simpl.
  destruct (filter_scale_cases f) as [-> | ->]; lia.
Qed.

(** X28. For a valid input format with 16 * width * height at most
    INT_MAX, so that no [int] product overflows,
    [TestCalculateFilterMemorySize] is the size of the filtered image for
    16-bit formats only: it equals height times pitch of the output format
    when the depth is 16, and half of it when the depth is 32. Under these
    conditions the size lies between 0 and INT_MAX, so the conversion to
    [size_t] changes nothing. *)
Theorem filter_memory_size (i : GraphicsFormat) (f : Z) :
  TestValidateGraphicsFormat (Some i) = true →
  16 * width i * height i <= INT_MAX →
  let o := TestCalculateOutputFormat (Some i) f in
  let size :=
    TestCalculateFilterMemorySize (width i) (height i) (TestGetFilterScale f) in
  (bpp i = 16 → height o * pitch o = size) ∧
  (bpp i = 32 → height o * pitch o = 2 * size) ∧
  0 <= size <= INT_MAX.
Proof.
  intros Hvalid Hfit o size. subst o size.
  apply valid_format_cases in Hvalid as (Hw & Hh & _ & _).
  unfold TestCalculateOutputFormat, TestCalculateFilterMemorySize, to_size_t,
    SIZE_WIDTH. simpl.
  assert (Hsmall : 0 <= width i * TestGetFilterScale f * height i
                          * TestGetFilterScale f * 2 <= INT_MAX).
  { destruct (filter_scale_cases f) as [-> | ->]; nia. }
  rewrite Z.mod_small by (unfold INT_MAX in Hsmall; lia).
  split; [|split; [|exact Hsmall]]; intros ->.
  - change (16 ÷ 8) with 2. ring.
  - change (32 ÷ 8) with 4. ring.
Qed.


(** ** [TestApplyFilter]: cells of a byte buffer *)

Lemma write_u16_spec (buf : list Z) k px :
  (2 * k + 1 < length buf)%nat →
  ∃ buf', write_u16 buf k px = Some buf' ∧ length buf' = length buf ∧
          read_u16 buf' k = Some px ∧
          ∀ j, j ≠ k → read_u16 buf' j = read_u16 buf j.
Proof.
  intros Hk. unfold write_u16.
  rewrite (proj2 (Nat.ltb_lt _ _) Hk).
  eexists. split; [done|]. split; [by rewrite !length_insert|]. split.
  - unfold read_u16.
    rewrite (list_lookup_insert_ne _ (2 * k + 1) (2 * k)) by lia.
    rewrite (list_lookup_insert_eq buf (2 * k)) by lia.
    cbn [mbind option_bind].
    rewrite (list_lookup_insert_eq _ (2 * k + 1))
      by (rewrite length_insert; lia).
    cbn [mbind option_bind]. by destruct px.
  - intros j Hj. unfold read_u16.
    by rewrite !list_lookup_insert_ne by lia.
Qed.

Lemma read_u16_in_range (buf : list Z) k :
  (2 * k + 1 < length buf)%nat → is_Some (read_u16 buf k).
Proof.
  intros Hk. unfold read_u16.
  destruct (lookup_lt_is_Some_2 buf (2 * k)) as [b0 ->]; [lia|].
  destruct (lookup_lt_is_Some_2 buf (2 * k + 1)) as [b1 ->]; [lia|].
  by eexists.
Qed.

(** The coordinates of a cell of an image [2 * W] cells wide. *)
Lemma cell_inj (W Y X Y' X' : nat) :
  (X < 2 * W)%nat → (X' < 2 * W)%nat →
  (Y * (2 * W) + X = Y' * (2 * W) + X')%nat → Y = Y' ∧ X = X'.
Proof.
  intros HX HX' Heq.
  assert (Y = Y'); [|subst; lia].
  destruct (Nat.lt_trichotomy Y Y') as [Hlt|[->|Hgt]]; [|done|]; exfalso; nia.
Qed.

Lemma half_cases (Y y : nat) :
  (Y / 2)%nat = y ↔ Y = (2 * y)%nat ∨ Y = (2 * y + 1)%nat.
Proof.
  pose proof (Nat.div_mod_eq Y 2) as Hdm.
  pose proof (Nat.mod_upper_bound Y 2 ltac:(lia)) as Hlt.
  split; [lia|]. intros Hy. symmetry. apply (Nat.div_unique Y 2 y (Y mod 2)); lia.
Qed.

Section ApplyFilter.
Variable inp : list Z.
Variable f : GraphicsFormat.

Let W : nat := Z.to_nat (width f).
Let H : nat := Z.to_nat (height f).

(** The cell of the input read for the pixel (x, y). *)
Let src (y x : nat) : nat :=
  Z.to_nat (Z.of_nat y * (pitch f ÷ 2) + Z.of_nat x).

Hypothesis Hwidth : 0 < width f.
Hypothesis Hinput : ∀ y x, (y < H)%nat → (x < W)%nat →
  (2 * src y x + 1 < length inp)%nat.

Lemma duplicate_pixel_spec (y x : nat) (out : list Z) :
  (y < H)%nat → (x < W)%nat →
  (2 * (2 * H * (2 * W)) ≤ length out)%nat →
  ∃ out',
    duplicate_pixel inp f 2 y x out = Some out' ∧
    length out' = length out ∧
    ∀ Y X, (X < 2 * W)%nat →
      read_u16 out' (Y * (2 * W) + X) =
      if decide ((Y / 2)%nat = y ∧ (X / 2)%nat = x)
      then read_u16 inp (src y x)
      else read_u16 out (Y * (2 * W) + X).
Proof.
  intros Hy Hx Hlen. unfold duplicate_pixel.
  destruct (read_u16_in_range inp (src y x) (Hinput y x Hy Hx)) as [px Hpx].
  fold (src y x). rewrite Hpx. cbn [mbind option_bind].
  assert (HW : width f = Z.of_nat W) by (subst W; lia).
  rewrite HW.
  replace (Z.to_nat (Z.of_nat y * 2 * (Z.of_nat W * 2) + Z.of_nat x * 2))
    with ((2 * y) * (2 * W) + 2 * x)%nat by nia.
  replace (Z.to_nat (Z.of_nat y * 2 * (Z.of_nat W * 2) + Z.of_nat x * 2 + 1))
    with ((2 * y) * (2 * W) + (2 * x + 1))%nat by nia.
  replace (Z.to_nat ((Z.of_nat y * 2 + 1) * (Z.of_nat W * 2) + Z.of_nat x * 2))
    with ((2 * y + 1) * (2 * W) + 2 * x)%nat by nia.
  replace (Z.to_nat ((Z.of_nat y * 2 + 1) * (Z.of_nat W * 2)
                     + Z.of_nat x * 2 + 1))
    with ((2 * y + 1) * (2 * W) + (2 * x + 1))%nat by nia.
  assert (Hbound : ∀ Y X, (Y < 2 * H)%nat → (X < 2 * W)%nat →
                          (2 * (Y * (2 * W) + X) + 1 < length out)%nat).
  { intros Y X HY HX. nia. }
  destruct (write_u16_spec out ((2 * y) * (2 * W) + 2 * x) px)
    as (o1 & -> & L1 & R1 & F1); [apply Hbound; lia|].
  cbn [mbind option_bind].
  destruct (write_u16_spec o1 ((2 * y) * (2 * W) + (2 * x + 1)) px)
    as (o2 & -> & L2 & R2 & F2); [rewrite L1; apply Hbound; lia|].
  cbn [mbind option_bind].
  destruct (write_u16_spec o2 ((2 * y + 1) * (2 * W) + 2 * x) px)
    as (o3 & -> & L3 & R3 & F3); [rewrite L2, L1; apply Hbound; lia|].
  cbn [mbind option_bind].
  destruct (write_u16_spec o3 ((2 * y + 1) * (2 * W) + (2 * x + 1)) px)
    as (o4 & -> & L4 & R4 & F4); [rewrite L3, L2, L1; apply Hbound; lia|].
  exists o4. split; [done|]. split; [congruence|].
  intros Y X HX.
  destruct (decide ((Y / 2)%nat = y ∧ (X / 2)%nat = x)) as [[HYy HXx]|Hother].
  - apply half_cases in HYy as HY. apply half_cases in HXx as HX'.
    clear HYy HXx.
    destruct HY as [-> | ->], HX' as [-> | ->].
    + rewrite F4, F3, F2, R1; [done| | |];
        intros E; apply cell_inj in E; lia.
    + rewrite F4, F3, R2; [done| |]; intros E; apply cell_inj in E; lia.
    + rewrite F4, R3; [done|]. intros E; apply cell_inj in E; lia.
    + by rewrite R4.
  - rewrite !half_cases in Hother.
    rewrite F4, F3, F2, F1; [done| | | |];
      intros E; apply cell_inj in E; lia.
Qed.

Lemma duplicate_row_spec (y : nat) (xs : list nat) : ∀ out : list Z,
  (y < H)%nat → Forall (λ x, (x < W)%nat) xs →
  (2 * (2 * H * (2 * W)) ≤ length out)%nat →
  ∃ out',
    for_each xs (λ x out, duplicate_pixel inp f 2 y x out) out = Some out' ∧
    length out' = length out ∧
    ∀ Y X, (X < 2 * W)%nat →
      read_u16 out' (Y * (2 * W) + X) =
      if decide ((Y / 2)%nat = y ∧ (X / 2)%nat ∈ xs)
      then read_u16 inp (src y (X / 2))
      else read_u16 out (Y * (2 * W) + X).
Proof.
  induction xs as [|x xs IH]; intros out Hy Hxs Hlen.
  - exists out. split; [done|]. split; [done|]. intros Y X HX.
    rewrite decide_False; [done|]. intros [_ Hin]. by apply elem_of_nil in Hin.
  - apply Forall_cons in Hxs as [Hx Hxs].
    destruct (duplicate_pixel_spec y x out Hy Hx Hlen) as (o1 & Ho1 & L1 & R1).
    destruct (IH o1 Hy Hxs) as (out' & Hout' & L' & R'); [by rewrite L1|].
    exists out'. cbn [for_each]. rewrite Ho1. cbn [mbind option_bind].
    split; [done|]. split; [congruence|]. intros Y X HX.
    rewrite R', R1 by done.
    destruct (decide ((Y / 2)%nat = y ∧ (X / 2)%nat ∈ xs)) as [[HY Hin]|Hno1].
    + rewrite decide_True; [done|]. split; [done|]. by right.
    + destruct (decide ((Y / 2)%nat = y ∧ (X / 2)%nat = x)) as [[HY HXx]|Hno2].
      * rewrite decide_True; [by rewrite HXx|]. split; [done|].
        rewrite HXx. left.
      * rewrite decide_False; [done|]. intros [HY Hin].
        apply elem_of_cons in Hin as [Hin|Hin]; tauto.
Qed.

Lemma duplicate_rows_spec (ys : list nat) : ∀ out : list Z,
  Forall (λ y, (y < H)%nat) ys →
  (2 * (2 * H * (2 * W)) ≤ length out)%nat →
  ∃ out',
    for_each ys (λ y out,
      for_loop (width f) (λ x out, duplicate_pixel inp f 2 y x out) out) out
    = Some out' ∧
    length out' = length out ∧
    ∀ Y X, (X < 2 * W)%nat →
      read_u16 out' (Y * (2 * W) + X) =
      if decide ((Y / 2)%nat ∈ ys)
      then read_u16 inp (src (Y / 2) (X / 2))
      else read_u16 out (Y * (2 * W) + X).
Proof.
  induction ys as [|y ys IH]; intros out Hys Hlen.
  - exists out. split; [done|]. split; [done|]. intros Y X HX.
    rewrite decide_False; [done|]. apply not_elem_of_nil.
  - apply Forall_cons in Hys as [Hy Hys].
    destruct (duplicate_row_spec y (seq 0 W) out Hy) as (o1 & Ho1 & L1 & R1);
      [|done|].
    { apply Forall_forall. intros x Hx. apply elem_of_seq in Hx. lia. }
    destruct (IH o1 Hys) as (out' & Hout' & L' & R'); [by rewrite L1|].
    change (for_loop (width f)
              (λ x out, duplicate_pixel inp f 2 y x out) out = Some o1) in Ho1.
    exists out'. cbn [for_each]. rewrite Ho1. cbn [mbind option_bind].
    split; [done|]. split; [congruence|]. intros Y X HX.
    rewrite R', R1 by done.
    assert (HXW : (X / 2)%nat ∈ seq 0 W).
    { apply elem_of_seq.
      pose proof (proj1 (half_cases X (X / 2)) eq_refl). lia. }
    destruct (decide ((Y / 2)%nat ∈ ys)) as [Hin|Hno1].
    + rewrite decide_True; [done|]. by right.
    + destruct (decide ((Y / 2)%nat = y)) as [HY|Hno2].
      * rewrite !decide_True; [by rewrite HY|rewrite HY; left|done].
      * rewrite !decide_False; [done| |tauto].
        intros Hin. apply elem_of_cons in Hin as [Hin|Hin]; tauto.
Qed.

End ApplyFilter.


(** A 16-bit pixel at an even byte offset is a [u16] cell. *)
Lemma pixel16_read_u16 (buf : list Z) (f : GraphicsFormat) (x y k : nat) :
  Z.to_nat (Z.of_nat y * pitch f + 2 * Z.of_nat x) = (2 * k)%nat →
  pixel16 buf f x y = read_u16 buf k.
Proof. intros E. unfold pixel16, read_u16. cbv zeta. by rewrite E. Qed.


(** X30. For a valid format with height * pitch at most INT_MAX, a 1x
    filter and buffers of at least height * pitch bytes, the call copies
    the first height * pitch input bytes to the output, keeps the rest of
    the output and returns true. A format that fails the validation, the
    [int] product of the validation being evaluated without overflow,
    makes the call return false with the output untouched, and so does a
    null argument. *)
Theorem apply_filter_1x_and_rejections (inp out : list Z) (f : GraphicsFormat)
    (filter : Z) :
  (TestValidateGraphicsFormat (Some f) = true →
   TestGetFilterScale filter = 1 →
   height f * pitch f <= INT_MAX →
   (Z.to_nat (height f * pitch f) ≤ length inp)%nat →
   (Z.to_nat (height f * pitch f) ≤ length out)%nat →
   TestApplyFilter (Some inp) (Some out) (Some f) filter
   = Some (true,
           Some (take (Z.to_nat (height f * pitch f)) inp
                 ++ drop (Z.to_nat (height f * pitch f)) out))) ∧
  (TestValidateGraphicsFormat (Some f) = false →
   (0 < width f → 0 < height f →
    INT_MIN <= width f * (bpp f ÷ 8) <= INT_MAX) →
   TestApplyFilter (Some inp) (Some out) (Some f) filter
   = Some (false, Some out)) ∧
  TestApplyFilter None (Some out) (Some f) filter = Some (false, Some out) ∧
  TestApplyFilter (Some inp) None (Some f) filter = Some (false, None) ∧
  TestApplyFilter (Some inp) (Some out) None filter = Some (false, Some out).
Proof.
  split; [|split; [|done]].
  - intros Hvalid Hscale _ Hinp Hout.
    unfold TestApplyFilter. rewrite Hvalid, Hscale. cbn [negb Z.eqb Pos.eqb].
    rewrite (proj2 (Nat.leb_le _ _) Hinp), (proj2 (Nat.leb_le _ _) Hout).
    cbn [andb]. by rewrite memcpy_eq.
  - intros Hinvalid _. unfold TestApplyFilter. by rewrite Hinvalid.
Qed.


(** ** The properties above on concrete inputs *)

Section SampleMore.
Local Existing Instance sample_header.

Lemma rebuild_single_pair_witness :
  supported CTRL_SCOPE CTRLR_GCPAD ∧
  ∀ c' p', (c', p') ≠ (Z.to_nat CTRL_SCOPE, Z.to_nat CTRLR_GCPAD) →
    row c' p' (ResetControls CTRL_SCOPE CTRLR_GCPAD btnmap0)
    = row c' p' btnmap0.
Proof.
  assert (Hs : supported CTRL_SCOPE CTRLR_GCPAD).
  { right. split; constructor. }
  split; [exact Hs|].
  destruct (rebuild_single_pair CTRL_SCOPE CTRLR_GCPAD btnmap0
              sample_ctrl_ok btnmap0_wf Hs)
    as (vals & r & _ & _ & _ & _ & Hframe).
  exact Hframe.
Defined.

Lemma rebuild_unsupported_pair_is_noop_witness :
  ¬ supported CTRL_SCOPE CTRLR_NUNCHUK ∧
  ResetControls CTRL_SCOPE CTRLR_NUNCHUK btnmap7 = btnmap7.
Proof.
  assert (Hc : CTRL_SCOPE ≠ -1) by (simpl; lia).
  assert (Hs : ¬ supported CTRL_SCOPE CTRLR_NUNCHUK).
  { unfold supported. apply (bool_decide_unpack _). by vm_compute. }
  split; [exact Hs|].
  exact (rebuild_unsupported_pair_is_noop CTRL_SCOPE CTRLR_NUNCHUK btnmap7
           Hc Hs).
Defined.

Lemma full_rebuild_absorbs_witness :
  row 0 1 (ResetControls (-1) 0 (ResetControls CTRL_PAD CTRLR_GCPAD btnmap7))
  = row 0 1 (ResetControls (-1) 0 btnmap7).
Proof.
  exact (proj1 (full_rebuild_absorbs CTRL_PAD CTRLR_GCPAD 0 btnmap7 0%nat 1%nat
                  sample_ctrl_ok)).
Defined.

Lemma rebuilds_commute_witness :
  row 0 1 (ResetControls CTRL_PAD CTRLR_WIIMOTE
             (ResetControls CTRL_MOUSE CTRLR_GCPAD btnmap7))
  = row 0 1 (ResetControls CTRL_MOUSE CTRLR_GCPAD
               (ResetControls CTRL_PAD CTRLR_WIIMOTE btnmap7)).
Proof.
  exact (rebuilds_commute CTRL_PAD CTRLR_WIIMOTE CTRL_MOUSE CTRLR_GCPAD
           btnmap7 0%nat 1%nat sample_ctrl_ok).
Defined.

Lemma classic_and_wupc_rows_agree_witness :
  ∃ vals,
    length vals = slotCount CTRL_MOUSE ∧
    slots (slotCount CTRL_MOUSE) CTRL_MOUSE CTRLR_CLASSIC
      (ResetControls (-1) (-1) btnmap0) = Some vals ∧
    slots (slotCount CTRL_MOUSE) CTRL_MOUSE CTRLR_WUPC
      (ResetControls (-1) (-1) btnmap0) = Some vals.
Proof.
  assert (Hc : CTRL_MOUSE ∈ [CTRL_PAD; CTRL_SCOPE; CTRL_MOUSE; CTRL_JUST]).
  { do 2 constructor. constructor. }
  exact (classic_and_wupc_rows_agree (-1) btnmap0 CTRL_MOUSE
           sample_ctrl_ok btnmap0_wf Hc).
Defined.

End SampleMore.

Lemma process_input_frame_and_idempotent_witness :
  ∃ h',
    TestProcessButtonInput (Some 1%nat) (Some 0%nat) [held 0; held SNES_A]
    = Some (true, h') ∧
    TestProcessButtonInput (Some 1%nat) (Some 0%nat) h' = Some (true, h').
Proof.
  destruct (process_input_frame_and_idempotent [held 0; held SNES_A] 1 0
              (held SNES_A) (held 0) eq_refl eq_refl)
    as (h' & cur' & Hrun & Hagain & _).
  exists h'. split; [exact Hrun | exact Hagain].
Defined.

Lemma edge_deltas_reconstruct_witness :
  ∃ cur',
    TestProcessButtonInput (Some 1%nat) (Some 0%nat)
      [held SNES_B; held SNES_A]
    = Some (true, <[1%nat := cur']> [held SNES_B; held SNES_A]) ∧
    Z.lor (Z.land SNES_B (not32 (buttons_released cur')))
          (buttons_pressed cur') = SNES_A.
Proof.
  destruct (edge_deltas_reconstruct [held SNES_B; held SNES_A] 1 0
              (held SNES_A) (held SNES_B) eq_refl eq_refl)
    as (cur' & Hrun & Hfwd & _).
  - unfold is_u32, held, SNES_A; simpl; lia.
  - unfold is_u32, held, SNES_B; simpl; lia.
  - exists cur'. split; [exact Hrun | exact Hfwd].
Defined.

Lemma no_edge_iff_unchanged_witness :
  ∃ cur',
    TestProcessButtonInput (Some 1%nat) (Some 0%nat)
      [held SNES_A; held SNES_A]
    = Some (true, <[1%nat := cur']> [held SNES_A; held SNES_A]) ∧
    buttons_pressed cur' = 0 ∧ buttons_released cur' = 0.
Proof.
  destruct (no_edge_iff_unchanged [held SNES_A; held SNES_A] 1 0
              (held SNES_A) (held SNES_A) eq_refl eq_refl)
    as (cur' & Hrun & Hiff & _).
  - unfold is_u32, held, SNES_A; simpl; lia.
  - unfold is_u32, held, SNES_A; simpl; lia.
  - exists cur'. split; [exact Hrun | exact (proj2 Hiff eq_refl)].
Defined.

Lemma map_button_spec_witness :
  wf_CtrlrMap (mkCtrlrMap 0 3 (replicate 15 (mkBtnMap 0 None))) ∧
  (TestMapButton (Some (mkCtrlrMap 0 3 (replicate 15 (mkBtnMap 0 None))))
     3 0x0100 (Some "Out of range"%string)).2
  = Some (mkCtrlrMap 0 3 (replicate 15 (mkBtnMap 0 None))).
Proof.
  assert (Hwf : wf_CtrlrMap (mkCtrlrMap 0 3 (replicate 15 (mkBtnMap 0 None))))
    by reflexivity.
  split; [exact Hwf|].
  destruct (map_button_spec (mkCtrlrMap 0 3 (replicate 15 (mkBtnMap 0 None)))
              3 0x0100 (Some "Out of range"%string) Hwf)
    as (_ & _ & Hfail & _).
  apply Hfail. reflexivity.
Defined.

Lemma map_button_with_count_witness :
  (TestMapButton (Some (mkCtrlrMap 0 12 (replicate 15 (mkBtnMap 0 None))))
     11 0x0100 (Some "Z"%string)).1 = true
  ↔ 0 <= 11 < TestGetControllerButtonCount CTRLR_GCPAD.
Proof.
  exact (proj1 (map_button_with_count
                  (mkCtrlrMap 0 12 (replicate 15 (mkBtnMap 0 None)))
                  CTRLR_GCPAD 11 0x0100 (Some "Z"%string) eq_refl)).
Defined.

Lemma extension_of_created_path_witness :
  TestGetFileExtension
    (TestCreatePath (Some ["s"; "d"; ":"; "/"; "r"]%char)
                    (Some ("." :: ["c"; "f"; "g"])%char) (Some [])).2
  = Some ["c"; "f"; "g"]%char.
Proof.
  apply (extension_of_created_path ["s"; "d"; ":"; "/"; "r"]%char []
           ["c"; "f"; "g"]%char []).
  - apply (bool_decide_unpack _). by vm_compute.
  - left. discriminate.
Defined.

Lemma safe_memcpy_spec_witness :
  ∃ d',
    TestSafeMemcpy (Some [7; 7; 7; 7]) (Some [1; 2; 3; 4; 5]) 4 5
    = (true, Some d') ∧
    buf_strlen d' = Some 3%nat.
Proof.
  destruct (safe_memcpy_spec [7; 7; 7; 7] [1; 2; 3; 4; 5] 4 5)
    as (_ & Hok & _).
  - simpl; lia.
  - simpl; lia.
  - destruct Hok as (d' & n & k & Hn & Hrun & _ & _ & Hk & _ & Hfull);
      [lia | lia |].
    exists d'. split; [exact Hrun|].
    rewrite Hk. f_equal. rewrite Hn in Hfull. apply Hfull.
    repeat constructor; discriminate.
Defined.

Lemma safe_buffer_copy_spec_witness :
  ∃ d',
    TestSafeBufferCopy (Some [7; 7; 7; 7]) 3 (Some [1; 2]) 2 = (true, Some d') ∧
    d' !! 2%nat = Some 0.
Proof.
  destruct (safe_buffer_copy_spec [7; 7; 7; 7] [1; 2] 3 2)
    as (d' & Hrun & _ & _ & Hzero & _).
  - simpl; lia.
  - simpl; lia.
  - exists d'. split; [exact Hrun | apply Hzero; lia].
Defined.

Lemma output_format_valid_witness :
  TestValidateGraphicsFormat
    (Some (TestCalculateOutputFormat (Some (mkGraphicsFormat 256 224 512 16))
             FILTER_HQ2X)) = true.
Proof.
  assert (H := output_format_valid (mkGraphicsFormat 256 224 512 16)
                 FILTER_HQ2X eq_refl).
  cbv zeta in H. apply H; unfold INT_MAX; simpl; lia.
Defined.

Lemma filter_memory_size_witness :
  let o := TestCalculateOutputFormat (Some (mkGraphicsFormat 256 224 512 16))
             FILTER_HQ2X in
  height o * pitch o
  = TestCalculateFilterMemorySize 256 224 (TestGetFilterScale FILTER_HQ2X).
Proof.
  assert (H := filter_memory_size (mkGraphicsFormat 256 224 512 16)
                 FILTER_HQ2X eq_refl).
  cbv zeta in H. cbv zeta. apply H; [unfold INT_MAX; simpl; lia | reflexivity].
Defined.


Lemma apply_filter_1x_and_rejections_witness :
  TestApplyFilter (Some [1; 2; 3; 4; 5]) (Some [9; 9; 9; 9; 9; 9])
    (Some (mkGraphicsFormat 2 1 4 16)) FILTER_NONE
  = Some (true, Some [1; 2; 3; 4; 9; 9]) ∧
  TestApplyFilter (Some [1; 2; 3; 4; 5]) (Some [9; 9; 9; 9; 9; 9])
    (Some (mkGraphicsFormat 2 1 3 16)) FILTER_NONE
  = Some (false, Some [9; 9; 9; 9; 9; 9]).
Proof.
  split.
  - apply (proj1 (apply_filter_1x_and_rejections [1; 2; 3; 4; 5]
                    [9; 9; 9; 9; 9; 9] (mkGraphicsFormat 2 1 4 16)
                    FILTER_NONE)).
    + reflexivity.
    + reflexivity.
    + unfold INT_MAX; simpl; lia.
    + simpl; lia.
    + simpl; lia.
  - apply (proj1 (proj2 (apply_filter_1x_and_rejections [1; 2; 3; 4; 5]
                           [9; 9; 9; 9; 9; 9] (mkGraphicsFormat 2 1 3 16)
                           FILTER_NONE))).
    + reflexivity.
    + intros _ _. unfold INT_MIN, INT_MAX. cbn [width bpp].
      change (16 ÷ 8) with 2. lia.
Defined.
